(** * Local similarity and array processing: the notebook's numerical core

    Shallow embedding of the code cells of
    [unit5/array_network_roses-exercise.ipynb] that carry computation of
    their own: [norm_xcorr], the lag limit [i_max], the sliding similarity
    loop, the network stack [C_stack] and the backazimuth reduction
    [B = slid_fk[:,3] % 360.].

    NumPy arrays of numbers are lists.  The element type is a parameter:
    the code is written once over an interface [Num] of the arithmetic it
    uses and is then read at three instances,
    - [R], exact real arithmetic, for the algebraic laws of [norm_xcorr]
      (faithful wherever no division by zero happens),
    - [float], IEEE binary64 as NumPy's [float64], for concrete runs and
      for the behaviour of NaN (sums run from the left; NumPy may add in
      another order, which changes last bits only and nothing stated
      here),
    - [Q], exact rational arithmetic, for the lag limit and the
      backazimuth, which need [int()] and [%] but no square root.
    What is proved about the loops and the stack holds at every instance.
    Python exceptions are an explicit outcome; the [while] loop takes fuel. *)

From Stdlib Require Import Floats.
From Stdlib Require Import List ZArith Lia Bool.
From Stdlib Require Import QArith Qround Qminmax.
From Stdlib Require Import Reals Lra Psatz.
Import ListNotations.

Local Open Scope Z_scope.

(** ** Outcomes of a Python computation *)

Inductive exn : Type :=
| ValueError   (* empty reduction, empty operand of np.correlate, shape mismatch *)
| IndexError   (* row or trace index out of range *)
| OverflowError. (* int() of an infinity *)

Inductive outcome (A : Type) : Type :=
| Ret (a : A)
| Raise (e : exn)
| OutOfFuel.

Arguments Ret {A} a.
Arguments Raise {A} e.
Arguments OutOfFuel {A}.

Definition bind {A B : Type} (m : outcome A) (k : A -> outcome B) : outcome B :=
  match m with
  | Ret a => k a
  | Raise e => Raise e
  | OutOfFuel => OutOfFuel
  end.

Notation "x <- m ;; k" := (bind m (fun x => k))
  (at level 61, m at next level, right associativity).

(** ** The arithmetic the notebook uses *)

Class Num (T : Type) : Type := {
  zero : T;
  add : T -> T -> T;
  sub : T -> T -> T;
  mul : T -> T -> T;
  div : T -> T -> T;
  absv : T -> T;        (* np.abs *)
  maxv : T -> T -> T;   (* np.maximum, the step of np.max *)
  of_nat : nat -> T     (* an int used in float arithmetic *)
}.

(** Arithmetic with a square root, as [np.std] needs it. *)
Class NumSqrt (T : Type) `{Num T} : Type := {
  sqrtv : T -> T        (* np.sqrt *)
}.

Declare Scope num_scope.
Delimit Scope num_scope with num.
Infix "+" := add : num_scope.
Infix "-" := sub : num_scope.
Infix "*" := mul : num_scope.
Infix "/" := div : num_scope.

(** Python's [x[start:stop]] on a sequence of length [n]: a negative bound
    counts from the end, and both bounds are clipped to [0..n]. *)
Definition slice_bound (n i : Z) : Z :=
  if i <? 0 then Z.max (i + n) 0 else Z.min i n.

Definition py_slice {A : Type} (x : list A) (start stop : Z) : list A :=
  let n := Z.of_nat (length x) in
  let s := slice_bound n start in
  let e := slice_bound n stop in
  firstn (Z.to_nat (e - s)) (skipn (Z.to_nat s) x).

Section Numeric.
Context {T : Type} `{NumSqrt T}.
Local Open Scope num_scope.

(** [np.sum]: accumulation from the left. *)
Definition np_sum (x : list T) : T := fold_left add x zero.

(** [np.mean(x)] is [np.sum(x) / len(x)]. *)
Definition np_mean (x : list T) : T := np_sum x / of_nat (length x).

(** [np.std(x)] is [sqrt(mean(abs(x - x.mean())**2))]. *)
Definition np_std (x : list T) : T :=
  let m := np_mean x in
  sqrtv (np_mean (map (fun v => absv (v - m) * absv (v - m)) x)).

(** [np.max]: a reduction with no identity, so an empty array raises. *)
Definition np_max (x : list T) : outcome T :=
  match x with
  | [] => Raise ValueError
  | v :: rest => Ret (fold_left maxv rest v)
  end.

(** Inner product of the overlapping prefix of two sequences. *)
Definition dot (x y : list T) : T :=
  fold_left (fun acc p => acc + fst p * snd p) (combine x y) zero.

(** One entry of the cross-correlation, at lag [k]:
    [c_k = sum_n a[n+k] * v[n]] over the [n] for which both exist. *)
Definition corr_at (a v : list T) (k : Z) : T :=
  if (k <? 0)%Z then dot a (skipn (Z.to_nat (- k)) v)
  else dot (skipn (Z.to_nat k) a) v.

(** [np.correlate(a, v, 'full')]: entry [j] holds lag [j - (len(v) - 1)];
    an empty operand raises. *)
Definition correlate_full (a v : list T) : outcome (list T) :=
  match a, v with
  | [], _ | _, [] => Raise ValueError
  | _, _ =>
      Ret (map (fun j => corr_at a v (Z.of_nat j - (Z.of_nat (length v) - 1))%Z)
               (seq 0 (length a + length v - 1)))
  end.

(** The two normalizations of [norm_xcorr]:
    [a = (a - np.mean(a)) / (np.std(a) * len(a))] and
    [b = (b - np.mean(b)) / (np.std(b))]. *)
Definition normalize_a (a : list T) : list T :=
  map (fun v => (v - np_mean a) / (np_std a * of_nat (length a))) a.

Definition normalize_b (b : list T) : list T :=
  map (fun v => (v - np_mean b) / np_std b) b.

Definition norm_xcorr (a b : list T) (max_lag : Z) : outcome T :=
  let a := normalize_a a in
  let b := normalize_b b in
  xcorr <- correlate_full a b ;;
  let i := (Z.of_nat (length a) - 1)%Z in      (* Zeroth lag *)
  let xcorr := py_slice xcorr (i - max_lag)%Z (i + max_lag)%Z in
  np_max xcorr.

(** *** The sliding similarity loop *)

(** Row [r] of a two-dimensional array. *)
Definition row_at (data : list (list T)) (r : nat) : outcome (list T) :=
  match nth_error data r with
  | Some row => Ret row
  | None => Raise IndexError
  end.

(** The body of the [while] loop for the window that starts at [l]:
    [data_l = data[:,l:l+nsamp_win]], the two correlations of row 0 with
    rows 1 and 2, and the value [(c1+c2)/2.] that is appended to [C]. *)
Definition window_similarity (data : list (list T)) (nsamp_win i_max l : Z)
  : outcome T :=
  let data_l := map (fun row => py_slice row l (l + nsamp_win)%Z) data in
  r0 <- row_at data_l 0 ;;
  r1 <- row_at data_l 1 ;;
  c1 <- norm_xcorr r0 r1 i_max ;;
  r2 <- row_at data_l 2 ;;
  c2 <- norm_xcorr r0 r2 i_max ;;
  Ret ((c1 + c2) / of_nat 2).

(** [while l < nsamp-nsamp_win: ...], from the state [(l, C, L)].
    [int(nsamp_win/4)] and [int(nsamp_win/2)] truncate, as [Z.quot]. *)
Fixpoint similarity_loop (fuel : nat) (data : list (list T))
    (nsamp nsamp_win i_max : Z) (l : Z) (C : list T) (L : list Z)
  : outcome (list T * list Z) :=
  match fuel with
  | O => OutOfFuel
  | S fuel' =>
      if (l <? nsamp - nsamp_win)%Z then
        c <- window_similarity data nsamp_win i_max l ;;
        similarity_loop fuel' data nsamp nsamp_win i_max
          (l + Z.quot nsamp_win 4)%Z
          (C ++ [c]) (L ++ [(l + Z.quot nsamp_win 2)%Z])
      else Ret (C, L)
  end.

(** [C = []; L = []; l = 0] and the loop. *)
Definition local_similarity (fuel : nat) (data : list (list T))
    (nsamp nsamp_win i_max : Z) : outcome (list T * list Z) :=
  similarity_loop fuel data nsamp nsamp_win i_max 0%Z [] [].

(** *** The network stack *)

(** [x/np.max(np.abs(x))]. *)
Definition scale_trace (x : list T) : outcome (list T) :=
  m <- np_max (map absv x) ;;
  Ret (map (fun v => v / m) x).

(** [data[l,:] = row]: the row index must exist, and the value must have
    the row's length or be a single element, which is broadcast. *)
Fixpoint set_row (data : list (list T)) (l : nat) (row : list T)
  : outcome (list (list T)) :=
  match data, l with
  | [], _ => Raise IndexError
  | old :: rest, O =>
      if Nat.eqb (length row) (length old) then Ret (row :: rest)
      else match row with
           | [v] => Ret (repeat v (length old) :: rest)
           | _ => Raise ValueError
           end
  | old :: rest, S l' =>
      rest' <- set_row rest l' row ;;
      Ret (old :: rest')
  end.

(** [for j in ix[i,:]: data[l,:] = st[j].data/np.max(np.abs(st[j].data));
    l = l + 1]. *)
Fixpoint fill_data (st : list (list T)) (js : list nat) (l : nat)
    (data : list (list T)) : outcome (list (list T)) :=
  match js with
  | [] => Ret data
  | j :: js' =>
      tr <- row_at st j ;;
      row <- scale_trace tr ;;
      data' <- set_row data l row ;;
      fill_data st js' (S l) data'
  end.

(** The body of [for i in range(0, ix.shape[0])]: the similarity trace of
    one station, from [data = np.zeros((3, nsamp))] filled with the
    station's row of [ix]. *)
Definition station_trace (fuel : nat) (st : list (list T)) (nsamp : nat)
    (nsamp_win i_max : Z) (js : list nat) : outcome (list T * list Z) :=
  data <- fill_data st js 0 (repeat (repeat zero nsamp) 3) ;;
  local_similarity fuel data (Z.of_nat nsamp) nsamp_win i_max.

(** The loop over the stations: [C_stack.append(C)]; [L] is the one of
    the last station. *)
Fixpoint stack_loop (fuel : nat) (st : list (list T)) (nsamp : nat)
    (nsamp_win i_max : Z) (ix : list (list nat))
    (C_stack : list (list T)) (L : list Z)
  : outcome (list (list T) * list Z) :=
  match ix with
  | [] => Ret (C_stack, L)
  | js :: ix' =>
      CL <- station_trace fuel st nsamp nsamp_win i_max js ;;
      stack_loop fuel st nsamp nsamp_win i_max ix' (C_stack ++ [fst CL]) (snd CL)
  end.

(** Element-wise sum of two rows of one length. *)
Fixpoint vadd (x y : list T) : list T :=
  match x, y with
  | u :: x', v :: y' => (u + v) :: vadd x' y'
  | _, _ => []
  end.

(** [C_stack.sum(axis=0)] of a stack with at least one row: the rows are
    added up from the first one on. *)
Definition sum_axis0 (row0 : list T) (rows : list (list T)) : list T :=
  fold_left vadd rows row0.

(** [np.array(C_stack)] needs rows of one length. *)
Definition rectangular (rows : list (list T)) : bool :=
  match rows with
  | [] => true
  | r :: rest => forallb (fun r' => Nat.eqb (length r') (length r)) rest
  end.

(** What [C_stack.sum(axis=0)/ix.shape[0]] is: with no trace at all
    [np.array([])] sums to the scalar [0.0]; otherwise a trace. *)
Inductive stacked : Type :=
| StackScalar (v : T)
| StackTrace (c : list T).

Definition network_stack (C_stack2D : list (list T)) (n_stations : nat)
  : outcome stacked :=
  let n := of_nat n_stations in
  match C_stack2D with
  | [] => Ret (StackScalar (zero / n))
  | row0 :: rows =>
      if rectangular C_stack2D
      then Ret (StackTrace (map (fun v => v / n) (sum_axis0 row0 rows)))
      else Raise ValueError
  end.

(** The whole cell: the per-station traces [C_stack2D], the stack
    [C_stack] and the window centres [L] left by the last station
    ([L_prev] is what an earlier cell left in [L]). *)
Definition C_stack_cell (fuel : nat) (st : list (list T)) (nsamp : nat)
    (nsamp_win i_max : Z) (ix : list (list nat)) (L_prev : list Z)
  : outcome (list (list T) * stacked * list Z) :=
  CL <- stack_loop fuel st nsamp nsamp_win i_max ix [] L_prev ;;
  C_stack <- network_stack (fst CL) (length ix) ;;
  Ret (fst CL, C_stack, snd CL).

End Numeric.

(** ** The two readings of the arithmetic *)

#[export] Instance Num_R : Num R := {
  zero := 0%R;
  add := Rplus;
  sub := Rminus;
  mul := Rmult;
  div := Rdiv;
  absv := Rabs;
  maxv := Rmax;
  of_nat := INR
}.

#[export] Instance NumSqrt_R : NumSqrt R := {
  sqrtv := R_sqrt.sqrt
}.

(** [np.maximum] on binary64 propagates NaN. *)
Definition fmax (x y : float) : float :=
  if PrimFloat.is_nan x then x
  else if PrimFloat.is_nan y then y
  else if PrimFloat.ltb x y then y else x.

#[export] Instance Num_float : Num float := {
  zero := 0%float;
  add := PrimFloat.add;
  sub := PrimFloat.sub;
  mul := PrimFloat.mul;
  div := PrimFloat.div;
  absv := PrimFloat.abs;
  maxv := fmax;
  of_nat := fun n => PrimFloat.of_uint63 (Uint63.of_Z (Z.of_nat n))
}.

#[export] Instance NumSqrt_float : NumSqrt float := {
  sqrtv := PrimFloat.sqrt
}.



(** ** Quantities that only go through [+ - * /], [int()] and [%]

    The lag limit and the backazimuth are read in exact rational
    arithmetic (every binary64 number is a rational). *)

#[export] Instance Num_Q : Num Q := {
  zero := 0%Q;
  add := Qplus;
  sub := Qminus;
  mul := Qmult;
  div := Qdiv;
  absv := Qabs.Qabs;
  maxv := Qmax;
  of_nat := fun n => inject_Z (Z.of_nat n)
}.

(** Python's [int(x)] on a finite number: truncation toward zero. *)
Definition py_int (x : Q) : Z :=
  if Qle_bool 0 x then Qfloor x else Qceiling x.

(** [int(x / y)]: for [y = 0] the quotient is an infinity or a NaN, and
    [int] raises. *)
Definition int_of_quotient (x y : Q) : outcome Z :=
  if Qeq_bool y 0 then
    if Qeq_bool x 0 then Raise ValueError else Raise OverflowError
  else Ret (py_int (x / y)).

(** The cell that fixes the lag limit:
    [max_dist = np.max(distances)/1000.], [v_min = 3.5],
    [t_max = max_dist/v_min], [i_max = int(t_max/st[0].stats.delta)]. *)
Definition v_min : Q := 35 # 10.

Definition max_dist (distances : list (list Q)) : outcome Q :=
  m <- np_max (concat distances) ;;
  Ret (m / 1000)%Q.

Definition t_max (distances : list (list Q)) : outcome Q :=
  d <- max_dist distances ;;
  Ret (d / v_min)%Q.

Definition i_max (distances : list (list Q)) (delta : Q) : outcome Z :=
  t <- t_max distances ;;
  int_of_quotient t delta.




(** ** The cells around the core: time shifts, result columns, time axis *)






(** [np.linspace(start, stop, num)]: [num] equally spaced samples, the
    last one set to [stop]. *)
Definition linspace (start stop : Q) (num : nat) : list Q :=
  match num with
  | O => []
  | S O => [start]
  | S n =>
      let step := ((stop - start) / inject_Z (Z.of_nat n))%Q in
      map (fun i => (inject_Z (Z.of_nat i) * step + start)%Q) (seq 0 n) ++ [stop]
  end.

(** [x[i]] for an integer [i]: a negative index counts from the end. *)
Definition py_index {A : Type} (x : list A) (i : Z) : outcome A :=
  let n := Z.of_nat (length x) in
  let i' := if i <? 0 then i + n else i in
  if (0 <=? i') && (i' <? n) then
    match nth_error x (Z.to_nat i') with
    | Some v => Ret v
    | None => Raise IndexError
    end
  else Raise IndexError.

(** [t[L]] for a list [L] of integers. *)
Fixpoint take {A : Type} (x : list A) (idx : list Z) : outcome (list A) :=
  match idx with
  | [] => Ret []
  | i :: rest =>
      v <- py_index x i ;;
      vs <- take x rest ;;
      Ret (v :: vs)
  end.

(** The time axis of the local-similarity cells,
    [t = np.linspace(-1., 10., nsamp)], read at the window centres:
    [t[L]], the abscissa of the similarity plots. *)
Definition similarity_times (nsamp : nat) (L : list Z) : outcome (list Q) :=
  take (linspace (-1) 10 nsamp) L.

(** ** Specification vocabulary *)

(** The lags [lo, lo+1, ..., lo+n-1]. *)
Definition lags (lo : Z) (n : nat) : list Z :=
  map (fun j => lo + Z.of_nat j) (seq 0 n).

(** The window starts [l, l+step, ...], [k] of them. *)
Fixpoint starts (step l : Z) (k : nat) : list Z :=
  match k with
  | O => []
  | S k' => l :: starts step (l + step) k'
  end.

(** How many windows the loop still makes from [l] on: the least [k] with
    [l + k*step >= nsamp - nsamp_win]. *)
Definition windows_left (nsamp nsamp_win l : Z) : nat :=
  let step := Z.quot nsamp_win 4 in
  Z.to_nat ((nsamp - nsamp_win - l + step - 1) / step).

Definition n_windows (nsamp nsamp_win : Z) : nat :=
  windows_left nsamp nsamp_win 0.

(** The window centres the loop records: start plus [int(nsamp_win/2)]. *)
Definition centres (nsamp nsamp_win : Z) : list Z :=
  map (fun l => l + Z.quot nsamp_win 2)
      (starts (Z.quot nsamp_win 4) 0 (n_windows nsamp nsamp_win)).

(** A sequence with its mean subtracted. *)
Definition centred (x : list R) : list R :=
  map (fun v => (v - np_mean x)%R) x.

(** A silent window in binary64: every sample is at the computed mean
    (all deviations are a zero). *)
Definition silent (x : list float) : bool :=
  forallb (fun v => PrimFloat.is_zero (sub v (np_mean x))) x.

(** A row of [ix] that the stack loop can process: three station
    indices, each of a trace of [nsamp] samples. *)
Definition valid_row {T : Type} (st : list (list T)) (nsamp : nat)
    (js : list nat) : bool :=
  Nat.eqb (length js) 3 &&
  forallb (fun j => match nth_error st j with
                    | Some tr => Nat.eqb (length tr) nsamp
                    | None => false
                    end) js.

(** A dead trace in binary64: every sample is a zero. *)
Definition dead (x : list float) : bool := forallb PrimFloat.is_zero x.

(** A row of [ix] that names a dead trace. *)
Definition has_dead (st : list (list float)) (js : list nat) : bool :=
  existsb (fun j => match nth_error st j with
                    | Some tr => dead tr
                    | None => false
                    end) js.

(** ** Concrete inputs for the runs *)

(** A record of 1000 samples used for the concrete runs. *)
Definition record_1000 : list float :=
  map (fun n => of_nat (n mod 7)) (seq 0 1000).

(** Three short traces for concrete runs of the stack. *)
Definition trace_a : list float := map (fun n => of_nat (n * n mod 7)) (seq 0 30).
Definition trace_b : list float := map (fun n => of_nat (n * n mod 5)) (seq 0 30).
Definition trace_c : list float := map (fun n => of_nat (n * 3 mod 11)) (seq 0 30).

(** Three traces of ten samples; the first one starts with silence. *)
Definition quiet_then_loud : list float := [0; 0; 0; 0; 0; 1; -2; 1; 0; 3]%float.
Definition loud_a : list float := [1; -1; 2; 0; 1; 3; -2; 1; 2; -3]%float.
Definition loud_b : list float := [2; 1; -1; 0; 3; 1; 1; -2; 0; 1]%float.

(** A dead trace of thirty samples. *)
Definition flat_trace : list float := repeat 0%float 30.

(** ** Shapes of binary64 numbers *)

(** The shapes of a binary64 number that the NaN analysis tells apart. *)
Definition fnan (x : float) : Prop := Prim2SF x = S754_nan.
Definition fzero (x : float) : Prop := exists s, Prim2SF x = S754_zero s.
Definition pzero (x : float) : Prop := Prim2SF x = S754_zero false.
Definition fzn (x : float) : Prop := fzero x \/ fnan x.

(** ** Tactics *)

(** Closes a side condition on concrete numbers. *)
Ltac by_computation :=
  first [ reflexivity | discriminate
        | vm_compute; first [ reflexivity | lia | congruence ] ].

(** Reads the interface's operations at the reals. *)
Ltac real_ops :=
  cbn [zero add sub mul div absv maxv of_nat sqrtv Num_R NumSqrt_R] in *.

(** * Properties *)

(** ** Slicing *)

Section Slices.
Context {A : Type}.

Lemma py_slice_length (x : list A) (s e : Z) :
  0 <= s <= e -> e <= Z.of_nat (length x) ->
  length (py_slice x s e) = Z.to_nat (e - s).
Proof.
  intros Hs He. unfold py_slice, slice_bound.
  destruct (Z.ltb_spec s 0); [lia|].
  destruct (Z.ltb_spec e 0); [lia|].
  rewrite length_firstn, length_skipn. lia.
Qed.

Lemma py_slice_map {B : Type} (f : A -> B) (x : list A) (s e : Z) :
  py_slice (map f x) s e = map f (py_slice x s e).
Proof.
  unfold py_slice. rewrite length_map, skipn_map, firstn_map. reflexivity.
Qed.

Lemma py_slice_inside (x : list A) (s e : Z) :
  0 <= s -> 0 <= e ->
  py_slice x s e =
  firstn (Z.to_nat (Z.min e (Z.of_nat (length x)) - Z.min s (Z.of_nat (length x))))
         (skipn (Z.to_nat s) x).
Proof.
  intros Hs He. unfold py_slice, slice_bound.
  destruct (Z.ltb_spec s 0); [lia|].
  destruct (Z.ltb_spec e 0); [lia|].
  destruct (Z.le_gt_cases s (Z.of_nat (length x))).
  - rewrite (Z.min_l s) by lia. reflexivity.
  - rewrite !skipn_all2 by lia. now rewrite !firstn_nil.
Qed.

Lemma py_slice_empty (x : list A) (i : Z) :
  py_slice x i i = [].
Proof. unfold py_slice. now rewrite Z.sub_diag. Qed.

End Slices.

Lemma firstn_seq (n start len : nat) :
  firstn n (seq start len) = seq start (Nat.min n len).
Proof.
  revert start len. induction n as [|n IH]; intros start [|len]; simpl; auto.
  now rewrite IH.
Qed.

Lemma py_slice_seq (n : nat) (s e : Z) :
  0 <= s <= e -> e <= Z.of_nat n ->
  py_slice (seq 0 n) s e = seq (Z.to_nat s) (Z.to_nat (e - s)).
Proof.
  intros Hs He. rewrite py_slice_inside by lia.
  rewrite length_seq, skipn_seq, firstn_seq. simpl.
  f_equal. lia.
Qed.

Lemma map_seq_from (B : Type) (f : nat -> B) (s n : nat) :
  map f (seq s n) = map (fun j => f (s + j)%nat) (seq 0 n).
Proof.
  revert s. induction n as [|n IH]; intros s; simpl.
  - reflexivity.
  - rewrite Nat.add_0_r. f_equal.
    rewrite IH, <- seq_shift, map_map.
    apply map_ext. intros j. f_equal. lia.
Qed.

(** ** What [norm_xcorr] searches, and when it returns *)

Section NormXcorr.
Context {T : Type} `{NumSqrt T}.

Lemma length_normalize_a (a : list T) : length (normalize_a a) = length a.
Proof. apply length_map. Qed.

Lemma length_normalize_b (b : list T) : length (normalize_b b) = length b.
Proof. apply length_map. Qed.

Lemma correlate_full_ret (a v : list T) :
  a <> [] -> v <> [] ->
  correlate_full a v =
  Ret (map (fun j => corr_at a v (Z.of_nat j - (Z.of_nat (length v) - 1)))
           (seq 0 (length a + length v - 1))).
Proof. destruct a, v; intros Ha Hv; try congruence; reflexivity. Qed.

Lemma correlate_full_cases (a v : list T) :
  correlate_full a v = Raise ValueError \/
  exists x, correlate_full a v = Ret x /\
            length x = (length a + length v - 1)%nat /\ a <> [] /\ v <> [].
Proof.
  destruct a as [|u a]; [now left|]. destruct v as [|w v]; [now left|].
  right. eexists. split; [reflexivity|].
  rewrite length_map, length_seq. repeat split; congruence.
Qed.

(** With [max_lag = 0] the slice [xcorr[i:i]] is empty, whatever the
    data: [np.max] raises. *)
Lemma norm_xcorr_lag0_raises (a b : list T) :
  norm_xcorr a b 0 = Raise ValueError.
Proof.
  unfold norm_xcorr.
  destruct (correlate_full_cases (normalize_a a) (normalize_b b))
    as [-> | (x & -> & _)]; simpl; [reflexivity|].
  rewrite Z.sub_0_r, Z.add_0_r, py_slice_empty. reflexivity.
Qed.

(** For a lag limit below the length, the slice holds the lags
    [-max_lag .. max_lag-1]: the lag [+max_lag] is not searched. *)
Lemma norm_xcorr_window (a b : list T) (max_lag : Z) :
  length a = length b ->
  1 <= max_lag < Z.of_nat (length a) ->
  norm_xcorr a b max_lag =
  np_max (map (corr_at (normalize_a a) (normalize_b b))
              (lags (- max_lag) (Z.to_nat (2 * max_lag)))).
Proof.
  intros Hlen HL. unfold norm_xcorr.
  rewrite correlate_full_ret.
  2,3: intros E; apply (f_equal (@length T)) in E;
       rewrite ?length_normalize_a, ?length_normalize_b in E; simpl in E; lia.
  simpl. rewrite py_slice_map, py_slice_seq.
  2,3: rewrite ?length_normalize_a, ?length_normalize_b; lia.
  rewrite length_normalize_a, length_normalize_b.
  f_equal. unfold lags. rewrite map_map, map_seq_from.
  replace (Z.to_nat (Z.of_nat (length a) - 1 + max_lag
                     - (Z.of_nat (length a) - 1 - max_lag)))
    with (Z.to_nat (2 * max_lag)) by lia.
  apply map_ext. intros j. f_equal. lia.
Qed.

Lemma py_slice_lag_window_nonempty (x : list T) (n : nat) (max_lag : Z) :
  (1 <= n)%nat -> length x = (n + n - 1)%nat -> 1 <= max_lag ->
  py_slice x (Z.of_nat n - 1 - max_lag) (Z.of_nat n - 1 + max_lag) <> [].
Proof.
  intros Hn Hx HL E. apply (f_equal (@length T)) in E. revert E.
  unfold py_slice, slice_bound.
  rewrite length_firstn, length_skipn, Hx. simpl.
  destruct (Z.ltb_spec (Z.of_nat n - 1 - max_lag) 0);
    destruct (Z.ltb_spec (Z.of_nat n - 1 + max_lag) 0); lia.
Qed.

(** [norm_xcorr] returns a number exactly when the lag limit is at
    least one (for operands of one positive length). *)
Lemma norm_xcorr_returns (a b : list T) (max_lag : Z) :
  length a = length b -> a <> [] -> 1 <= max_lag ->
  exists v, norm_xcorr a b max_lag = Ret v.
Proof.
  intros Hlen Ha HL. unfold norm_xcorr.
  assert (Hn : (1 <= length a)%nat) by (destruct a; simpl; [congruence|lia]).
  rewrite correlate_full_ret.
  2,3: intros E; apply (f_equal (@length T)) in E;
       rewrite ?length_normalize_a, ?length_normalize_b in E; simpl in E; lia.
  simpl.
  match goal with |- exists v, np_max ?s = _ => destruct s eqn:E end.
  - exfalso. revert E. rewrite length_normalize_a.
    apply py_slice_lag_window_nonempty with (n := length a); auto.
    rewrite length_map, length_seq, ?length_normalize_a, ?length_normalize_b. lia.
  - eexists. reflexivity.
Qed.

End NormXcorr.

(** ** The sliding loop *)

Lemma quot4_ge1 (w : Z) : 1 <= Z.quot w 4 -> 4 <= w.
Proof.
  intros Hq. destruct (Z.le_gt_cases 4 w) as [|Hlt]; [assumption|exfalso].
  destruct (Z.le_gt_cases 0 w).
  - rewrite Z.quot_small in Hq by lia. lia.
  - assert (Z.quot w 4 <= 0) by (apply Z.quot_le_upper_bound; lia). lia.
Qed.

Lemma windows_left_more (nsamp nsamp_win l : Z) :
  1 <= Z.quot nsamp_win 4 -> l < nsamp - nsamp_win ->
  windows_left nsamp nsamp_win l =
  S (windows_left nsamp nsamp_win (l + Z.quot nsamp_win 4)).
Proof.
  intros Hs Hl. unfold windows_left. set (s := Z.quot nsamp_win 4) in *.
  clearbody s.
  replace (nsamp - nsamp_win - l + s - 1) with (nsamp - nsamp_win - l - 1 + 1 * s) by lia.
  replace (nsamp - nsamp_win - (l + s) + s - 1) with (nsamp - nsamp_win - l - 1) by lia.
  rewrite Z.div_add by lia.
  assert (0 <= (nsamp - nsamp_win - l - 1) / s) by (apply Z.div_pos; lia).
  lia.
Qed.

Lemma windows_left_none (nsamp nsamp_win l : Z) :
  1 <= Z.quot nsamp_win 4 -> nsamp - nsamp_win <= l ->
  windows_left nsamp nsamp_win l = O.
Proof.
  intros Hs Hl. unfold windows_left. set (s := Z.quot nsamp_win 4) in *.
  clearbody s.
  assert ((nsamp - nsamp_win - l + s - 1) / s <= 0); [|lia].
  assert ((nsamp - nsamp_win - l + s - 1) / s < 1); [|lia].
  apply Z.div_lt_upper_bound; lia.
Qed.

Lemma length_starts (step l : Z) (k : nat) : length (starts step l k) = k.
Proof. revert l. induction k; intros; simpl; auto. Qed.

Lemma nth_error_starts (step l : Z) (k j : nat) :
  (j < k)%nat -> nth_error (starts step l k) j = Some (l + Z.of_nat j * step).
Proof.
  revert l j. induction k as [|k IH]; intros l j Hj; [lia|].
  destruct j as [|j]; cbn [starts nth_error].
  - f_equal. lia.
  - rewrite IH by lia. f_equal. lia.
Qed.

Section Loop.
Context {T : Type} `{NumSqrt T}.
Variables (data : list (list T)) (nsamp nsamp_win i_max : Z).

Let step := Z.quot nsamp_win 4.
Let centre (l : Z) := l + Z.quot nsamp_win 2.

(** The loop makes [windows_left] windows, at the starts
    [l, l+step, ...]; it appends the body's value and the window centre
    for each one, in order. *)
Lemma similarity_loop_spec (k fuel : nat) (l : Z) (C : list T) (L : list Z) :
  1 <= step -> 0 <= l ->
  k = windows_left nsamp nsamp_win l ->
  (k < fuel)%nat ->
  (forall l', 0 <= l' < nsamp - nsamp_win ->
              exists c, window_similarity data nsamp_win i_max l' = Ret c) ->
  exists Cs,
    similarity_loop fuel data nsamp nsamp_win i_max l C L =
      Ret (C ++ Cs, L ++ map centre (starts step l k)) /\
    Forall2 (fun l' c => window_similarity data nsamp_win i_max l' = Ret c)
            (starts step l k) Cs.
Proof.
  intros Hs. revert fuel l C L.
  induction k as [|k IH]; intros fuel l C L Hl Hk Hfuel Hbody;
    (destruct fuel as [|fuel]; [lia|]); simpl.
  - destruct (Z.ltb_spec l (nsamp - nsamp_win)) as [Hlt|Hge].
    + rewrite windows_left_more in Hk by assumption. discriminate.
    + exists []. rewrite !app_nil_r. split; [reflexivity|constructor].
  - destruct (Z.ltb_spec l (nsamp - nsamp_win)) as [Hlt|Hge].
    + rewrite windows_left_more in Hk by assumption.
      destruct (Hbody l ltac:(lia)) as [c Hc]. rewrite Hc. simpl.
      destruct (IH fuel (l + step) (C ++ [c]) (L ++ [centre l]))
        as (Cs & Hrun & Hall); try lia; try assumption.
      { unfold step. congruence. }
      exists (c :: Cs). split.
      * fold step. unfold centre in Hrun. rewrite Hrun.
        rewrite <- !app_assoc. reflexivity.
      * constructor; assumption.
    + rewrite windows_left_none in Hk by assumption. discriminate.
Qed.

(** The body on a three-row array, spelled out. *)
Lemma window_similarity_rows (r0 r1 r2 : list T) (l : Z) :
  window_similarity [r0; r1; r2] nsamp_win i_max l =
  (c1 <- norm_xcorr (py_slice r0 l (l + nsamp_win))
                    (py_slice r1 l (l + nsamp_win)) i_max ;;
   c2 <- norm_xcorr (py_slice r0 l (l + nsamp_win))
                    (py_slice r2 l (l + nsamp_win)) i_max ;;
   Ret (div (add c1 c2) (of_nat 2))).
Proof. reflexivity. Qed.

End Loop.

Lemma Forall2_nth_error_l {A B : Type} (P : A -> B -> Prop)
    (xs : list A) (ys : list B) (j : nat) (x : A) :
  Forall2 P xs ys -> nth_error xs j = Some x ->
  exists y, nth_error ys j = Some y /\ P x y.
Proof.
  intros HF. revert j. induction HF as [|x' y' xs ys Hxy HF IH]; intros j Hj.
  - destruct j; discriminate.
  - destruct j as [|j]; simpl in Hj.
    + injection Hj as ->. exists y'. split; [reflexivity|assumption].
    + apply IH in Hj. exact Hj.
Qed.

Section Windows.
Context {T : Type} `{NumSqrt T}.
Variables (r0 r1 r2 : list T) (nsamp nsamp_win i_max : Z).
Hypothesis Hlen0 : Z.of_nat (length r0) = nsamp.
Hypothesis Hlen1 : Z.of_nat (length r1) = nsamp.
Hypothesis Hlen2 : Z.of_nat (length r2) = nsamp.
Hypothesis Hwin : 1 <= Z.quot nsamp_win 4.
Hypothesis Hlag : 1 <= i_max.

Let step := Z.quot nsamp_win 4.
Let window (r : list T) (l : Z) := py_slice r l (l + nsamp_win).

Lemma length_window (r : list T) (l : Z) :
  Z.of_nat (length r) = nsamp -> 0 <= l < nsamp - nsamp_win ->
  length (window r l) = Z.to_nat nsamp_win.
Proof.
  intros Hr Hl. pose proof (quot4_ge1 _ Hwin). unfold window.
  rewrite py_slice_length by lia. f_equal. lia.
Qed.

(** In a full window the body returns the mean of two correlations. *)
Lemma window_similarity_returns (l : Z) :
  0 <= l < nsamp - nsamp_win ->
  exists c1 c2,
    norm_xcorr (window r0 l) (window r1 l) i_max = Ret c1 /\
    norm_xcorr (window r0 l) (window r2 l) i_max = Ret c2 /\
    window_similarity [r0; r1; r2] nsamp_win i_max l =
      Ret (div (add c1 c2) (of_nat 2)).
Proof.
  intros Hl. pose proof (quot4_ge1 _ Hwin) as Hw.
  assert (Hne : window r0 l <> []).
  { intros E. apply (f_equal (@length T)) in E.
    rewrite length_window in E by assumption. simpl in E. lia. }
  destruct (norm_xcorr_returns (window r0 l) (window r1 l) i_max) as [c1 Hc1];
    [rewrite !length_window by assumption; reflexivity | assumption | assumption |].
  destruct (norm_xcorr_returns (window r0 l) (window r2 l) i_max) as [c2 Hc2];
    [rewrite !length_window by assumption; reflexivity | assumption | assumption |].
  exists c1, c2. repeat split; try assumption.
  rewrite window_similarity_rows. fold (window r0 l) (window r1 l) (window r2 l).
  rewrite Hc1, Hc2. reflexivity.
Qed.

(** The whole loop on a three-row array of [nsamp] samples: it returns,
    with one entry per window start [0, step, 2*step, ...]. *)
Lemma local_similarity_spec (fuel : nat) :
  (n_windows nsamp nsamp_win < fuel)%nat ->
  exists C,
    local_similarity fuel [r0; r1; r2] nsamp nsamp_win i_max =
      Ret (C, centres nsamp nsamp_win) /\
    Forall2 (fun l c => window_similarity [r0; r1; r2] nsamp_win i_max l = Ret c)
            (starts step 0 (n_windows nsamp nsamp_win)) C.
Proof.
  intros Hfuel. unfold local_similarity.
  destruct (similarity_loop_spec [r0; r1; r2] nsamp nsamp_win i_max
              (n_windows nsamp nsamp_win) fuel 0 [] [])
    as (Cs & Hrun & Hall); try assumption; try reflexivity; try lia.
  - intros l Hl. destruct (window_similarity_returns l Hl) as (c1 & c2 & _ & _ & E).
    eexists. exact E.
  - exists Cs. split; assumption.
Qed.

End Windows.

(** The number of windows is the ceiling of
    [(nsamp - nsamp_win) / step]: the floor when the step divides the
    difference, one more otherwise. *)
Lemma n_windows_exact (nsamp nsamp_win : Z) :
  1 <= Z.quot nsamp_win 4 -> nsamp_win <= nsamp ->
  (nsamp - nsamp_win) mod (Z.quot nsamp_win 4) = 0 ->
  Z.of_nat (n_windows nsamp nsamp_win) = (nsamp - nsamp_win) / Z.quot nsamp_win 4.
Proof.
  intros Hs Hn Hm. unfold n_windows, windows_left.
  set (s := Z.quot nsamp_win 4) in *. clearbody s.
  set (d := nsamp - nsamp_win) in *.
  assert (Hd : d = s * (d / s)) by (rewrite (Z.div_mod d s) at 1 by lia; lia).
  assert (0 <= d / s) by (apply Z.div_pos; lia).
  replace (d - 0 + s - 1) with (s - 1 + (d / s) * s) by lia.
  rewrite Z.div_add, Z.div_small by lia. lia.
Qed.

Lemma n_windows_inexact (nsamp nsamp_win : Z) :
  1 <= Z.quot nsamp_win 4 -> nsamp_win <= nsamp ->
  (nsamp - nsamp_win) mod (Z.quot nsamp_win 4) <> 0 ->
  Z.of_nat (n_windows nsamp nsamp_win) = (nsamp - nsamp_win) / Z.quot nsamp_win 4 + 1.
Proof.
  intros Hs Hn Hm. unfold n_windows, windows_left.
  set (s := Z.quot nsamp_win 4) in *. clearbody s.
  set (d := nsamp - nsamp_win) in *.
  pose proof (Z.mod_pos_bound d s ltac:(lia)) as Hr.
  pose proof (Z.div_mod d s ltac:(lia)) as Hd.
  assert (0 <= d / s) by (apply Z.div_pos; lia).
  replace (d - 0 + s - 1) with (d mod s - 1 + (d / s + 1) * s) by lia.
  rewrite Z.div_add, Z.div_small by lia. lia.
Qed.

(** ** The network stack *)

Section Stack.
Context {T : Type} `{NumSqrt T}.

Lemma scale_trace_returns (x : list T) :
  x <> [] ->
  exists m, np_max (map absv x) = Ret m /\
            scale_trace x = Ret (map (fun v => div v m) x).
Proof.
  intros Hx. unfold scale_trace. destruct x as [|u x]; [congruence|].
  simpl. eexists. split; reflexivity.
Qed.

(** Filling [np.zeros((3, nsamp))] from a row of three valid indices
    gives the three scaled traces, in the order of the row. *)
Lemma fill_data_three (st : list (list T)) (nsamp : nat) (js : list nat) :
  (1 <= nsamp)%nat -> valid_row st nsamp js = true ->
  exists j0 j1 j2 t0 t1 t2 s0 s1 s2,
    js = [j0; j1; j2] /\
    nth_error st j0 = Some t0 /\ nth_error st j1 = Some t1 /\
    nth_error st j2 = Some t2 /\
    scale_trace t0 = Ret s0 /\ scale_trace t1 = Ret s1 /\
    scale_trace t2 = Ret s2 /\
    length s0 = nsamp /\ length s1 = nsamp /\ length s2 = nsamp /\
    fill_data st js 0 (repeat (repeat zero nsamp) 3) = Ret [s0; s1; s2].
Proof.
  intros Hn Hv. unfold valid_row in Hv.
  apply andb_true_iff in Hv as [Hl Hv]. apply Nat.eqb_eq in Hl.
  destruct js as [|j0 [|j1 [|j2 [|]]]]; try discriminate.
  simpl in Hv.
  destruct (nth_error st j0) as [t0|] eqn:E0; [|discriminate].
  destruct (nth_error st j1) as [t1|] eqn:E1;
    [|rewrite andb_false_r in Hv; discriminate].
  destruct (nth_error st j2) as [t2|] eqn:E2;
    [|rewrite !andb_false_r in Hv; discriminate].
  rewrite andb_true_r in Hv.
  apply andb_true_iff in Hv as [H0' Hv]. apply andb_true_iff in Hv as [H1' H2'].
  apply Nat.eqb_eq in H0', H1', H2'.
  assert (Hne : forall t : list T, length t = nsamp -> t <> []).
  { intros t Ht E. subst t. simpl in Ht. lia. }
  destruct (scale_trace_returns t0 (Hne _ H0')) as (m0 & _ & S0).
  destruct (scale_trace_returns t1 (Hne _ H1')) as (m1 & _ & S1).
  destruct (scale_trace_returns t2 (Hne _ H2')) as (m2 & _ & S2).
  exists j0, j1, j2, t0, t1, t2.
  eexists _, _, _. repeat split; try eassumption.
  1-3: rewrite length_map; assumption.
  unfold fill_data, row_at. rewrite E0, E1, E2. cbn [bind].
  rewrite S0, S1, S2. cbn [bind repeat set_row].
  rewrite length_map, repeat_length, H0', Nat.eqb_refl. cbn [bind set_row].
  rewrite length_map, repeat_length, H1', Nat.eqb_refl. cbn [bind set_row].
  rewrite length_map, repeat_length, H2', Nat.eqb_refl. reflexivity.
Qed.

End Stack.

Lemma length_centres (nsamp nsamp_win : Z) :
  length (centres nsamp nsamp_win) = n_windows nsamp nsamp_win.
Proof. unfold centres. now rewrite length_map, length_starts. Qed.

Lemma nth_error_centres (nsamp nsamp_win : Z) (j : nat) :
  (j < n_windows nsamp nsamp_win)%nat ->
  nth_error (centres nsamp nsamp_win) j =
  Some (Z.of_nat j * Z.quot nsamp_win 4 + Z.quot nsamp_win 2).
Proof.
  intros Hj. unfold centres.
  rewrite nth_error_map, nth_error_starts by assumption. reflexivity.
Qed.

Section StationTraces.
Context {T : Type} `{NumSqrt T}.
Variables (st : list (list T)) (nsamp : nat) (nsamp_win i_max : Z).
Hypothesis Hsamp : (1 <= nsamp)%nat.
Hypothesis Hwin : 1 <= Z.quot nsamp_win 4.
Hypothesis Hlag : 1 <= i_max.

Let k := n_windows (Z.of_nat nsamp) nsamp_win.
Let step := Z.quot nsamp_win 4.

(** One station: the trace has one entry per window, each the body's
    value on the three scaled traces of the station's row of [ix]. *)
Lemma station_trace_spec (fuel : nat) (js : list nat) :
  valid_row st nsamp js = true -> (k < fuel)%nat ->
  exists j0 j1 j2 t0 t1 t2 s0 s1 s2 C,
    js = [j0; j1; j2] /\
    nth_error st j0 = Some t0 /\ nth_error st j1 = Some t1 /\
    nth_error st j2 = Some t2 /\
    scale_trace t0 = Ret s0 /\ scale_trace t1 = Ret s1 /\
    scale_trace t2 = Ret s2 /\
    length s0 = nsamp /\ length s1 = nsamp /\ length s2 = nsamp /\
    station_trace fuel st nsamp nsamp_win i_max js =
      Ret (C, centres (Z.of_nat nsamp) nsamp_win) /\
    Forall2 (fun l c => window_similarity [s0; s1; s2] nsamp_win i_max l = Ret c)
            (starts step 0 k) C.
Proof.
  intros Hv Hfuel.
  destruct (fill_data_three st nsamp js Hsamp Hv)
    as (j0 & j1 & j2 & t0 & t1 & t2 & s0 & s1 & s2 & Hjs & E0 & E1 & E2
        & S0 & S1 & S2 & L0 & L1 & L2 & Hfill).
  destruct (local_similarity_spec s0 s1 s2 (Z.of_nat nsamp) nsamp_win i_max
              ltac:(lia) ltac:(lia) ltac:(lia) Hwin Hlag fuel Hfuel)
    as (C & Hrun & Hall).
  exists j0, j1, j2, t0, t1, t2, s0, s1, s2, C.
  repeat split; try assumption.
  unfold station_trace. rewrite Hfill. exact Hrun.
Qed.

Lemma station_trace_length (fuel : nat) (js : list nat) :
  valid_row st nsamp js = true -> (k < fuel)%nat ->
  exists C, station_trace fuel st nsamp nsamp_win i_max js =
              Ret (C, centres (Z.of_nat nsamp) nsamp_win) /\
            length C = k.
Proof.
  intros Hv Hfuel.
  destruct (station_trace_spec fuel js Hv Hfuel)
    as (j0 & j1 & j2 & t0 & t1 & t2 & s0 & s1 & s2 & C & _ & _ & _ & _
        & _ & _ & _ & _ & _ & _ & Hrun & Hall).
  exists C. split; [assumption|].
  apply Forall2_length in Hall. rewrite length_starts in Hall. auto.
Qed.

(** The loop over the stations appends one trace per row of [ix], all
    with the same window centres. *)
Lemma stack_loop_spec (fuel : nat) (ix : list (list nat))
    (acc : list (list T)) (L_prev : list Z) :
  forallb (valid_row st nsamp) ix = true -> (k < fuel)%nat ->
  exists rows,
    stack_loop fuel st nsamp nsamp_win i_max ix acc L_prev =
      Ret (acc ++ rows,
           match ix with
           | [] => L_prev
           | _ => centres (Z.of_nat nsamp) nsamp_win
           end) /\
    Forall2 (fun js C =>
               station_trace fuel st nsamp nsamp_win i_max js =
                 Ret (C, centres (Z.of_nat nsamp) nsamp_win) /\
               length C = k) ix rows.
Proof.
  intros Hv Hfuel. revert acc L_prev.
  induction ix as [|js ix IH]; intros acc L_prev.
  - exists []. rewrite app_nil_r. split; [reflexivity|constructor].
  - simpl in Hv. apply andb_true_iff in Hv as [Hjs Hv].
    destruct (station_trace_length fuel js Hjs Hfuel) as (C & Hrun & HC).
    destruct (IH Hv (acc ++ [C]) (centres (Z.of_nat nsamp) nsamp_win))
      as (rows & Hloop & Hall).
    exists (C :: rows). split.
    + cbn [stack_loop]. rewrite Hrun. cbn [bind fst snd].
      rewrite Hloop, <- app_assoc. destruct ix; reflexivity.
    + constructor; [split|]; assumption.
Qed.

End StationTraces.

Section Sums.
Context {T : Type} `{Num T}.

Lemma length_vadd (x y : list T) :
  length x = length y -> length (vadd x y) = length x.
Proof.
  revert y. induction x as [|u x IH]; intros [|v y] E; simpl in *;
    try discriminate; auto.
Qed.

Lemma nth_vadd (x y : list T) (j : nat) (d : T) :
  length x = length y -> (j < length x)%nat ->
  nth j (vadd x y) d = add (nth j x d) (nth j y d).
Proof.
  revert y j. induction x as [|u x IH]; intros [|v y] j E Hj; simpl in *;
    try discriminate; try lia.
  destruct j as [|j]; [reflexivity|]. apply IH; lia.
Qed.

(** Column [j] of the summed stack is the sum of column [j] of the
    rows, accumulated from the first row on. *)
Lemma sum_axis0_nth (rows : list (list T)) (row0 : list T) (j : nat) (d : T) :
  Forall (fun r => length r = length row0) rows -> (j < length row0)%nat ->
  length (sum_axis0 row0 rows) = length row0 /\
  nth j (sum_axis0 row0 rows) d =
  fold_left add (map (fun r => nth j r d) rows) (nth j row0 d).
Proof.
  unfold sum_axis0. revert row0.
  induction rows as [|r rows IH]; intros row0 Hall Hj; simpl.
  - split; reflexivity.
  - inversion Hall as [|? ? Hr Hrest]; subst.
    destruct (IH (vadd row0 r)) as [Hlen Hnth].
    + rewrite length_vadd by auto. exact Hrest.
    + rewrite length_vadd by auto. exact Hj.
    + rewrite length_vadd in Hlen by auto. split; [exact Hlen|].
      rewrite Hnth, nth_vadd by auto. reflexivity.
Qed.

Lemma rectangular_same_length (row0 : list T) (rows : list (list T)) :
  Forall (fun r => length r = length row0) rows ->
  rectangular (row0 :: rows) = true.
Proof.
  intros Hall. simpl. apply forallb_forall. intros r Hin.
  rewrite Forall_forall in Hall. apply Nat.eqb_eq. auto.
Qed.

(** The stack of at least one trace, all of one length: every entry is
    the column sum divided by the number of traces. *)
Lemma network_stack_spec (row0 : list T) (rows : list (list T)) (n : nat) :
  Forall (fun r => length r = length row0) rows ->
  exists c,
    network_stack (row0 :: rows) n = Ret (StackTrace c) /\
    length c = length row0 /\
    forall j, (j < length row0)%nat ->
      nth_error c j =
      Some (div (fold_left add (map (fun r => nth j r zero) rows) (nth j row0 zero))
                (of_nat n)).
Proof.
  intros Hall. unfold network_stack.
  rewrite rectangular_same_length by assumption.
  eexists. split; [reflexivity|]. split.
  - rewrite length_map. destruct row0 as [|u row0].
    + clear Hall. unfold sum_axis0.
      induction rows as [|r rows IH]; simpl; auto.
    + apply (sum_axis0_nth rows (u :: row0) 0 zero Hall). simpl. lia.
  - intros j Hj.
    destruct (sum_axis0_nth rows row0 j zero Hall Hj) as [Hlen Hnth].
    rewrite nth_error_map.
    rewrite (nth_error_nth' _ zero) by lia. simpl. now rewrite Hnth.
Qed.

End Sums.

(** ** The claims about the loops *)

(** C4 (as amended). On three rows of [nsamp] samples, with a window of
    [nsamp_win <= nsamp] samples whose step [int(nsamp_win/4)] is at least
    one and a lag limit of at least one, the sliding loop returns a
    similarity trace and as many window centres; their number is the
    ceiling of [(nsamp - nsamp_win) / step]: the floor when the step
    divides the difference (the window that ends with the record is not
    made), and the floor plus one otherwise. *)
Theorem similarity_trace_length {T : Type} `{NumSqrt T}
    (r0 r1 r2 : list T) (nsamp nsamp_win i_max : Z) (fuel : nat) :
  Z.of_nat (length r0) = nsamp ->
  Z.of_nat (length r1) = nsamp ->
  Z.of_nat (length r2) = nsamp ->
  1 <= Z.quot nsamp_win 4 -> nsamp_win <= nsamp -> 1 <= i_max ->
  (n_windows nsamp nsamp_win < fuel)%nat ->
  exists C L,
    local_similarity fuel [r0; r1; r2] nsamp nsamp_win i_max = Ret (C, L) /\
    length C = length L /\
    ((nsamp - nsamp_win) mod (Z.quot nsamp_win 4) = 0 ->
     Z.of_nat (length C) = (nsamp - nsamp_win) / Z.quot nsamp_win 4) /\
    ((nsamp - nsamp_win) mod (Z.quot nsamp_win 4) <> 0 ->
     Z.of_nat (length C) = (nsamp - nsamp_win) / Z.quot nsamp_win 4 + 1).
Proof.
  intros L0 L1 L2 Hwin Hle Hlag Hfuel.
  destruct (local_similarity_spec r0 r1 r2 nsamp nsamp_win i_max
              L0 L1 L2 Hwin Hlag fuel Hfuel) as (C & Hrun & Hall).
  apply Forall2_length in Hall. rewrite length_starts in Hall.
  exists C, (centres nsamp nsamp_win). split; [exact Hrun|].
  rewrite length_centres, <- Hall. split; [reflexivity|]. split; intros Hm.
  - now apply n_windows_exact.
  - now apply n_windows_inexact.
Qed.

Lemma similarity_trace_length_witness :
  exists C L,
    local_similarity 50 [record_1000; record_1000; record_1000] 1000 90 10
      = Ret (C, L) /\
    length C = length L /\
    ((1000 - 90) mod (Z.quot 90 4) = 0 ->
     Z.of_nat (length C) = (1000 - 90) / Z.quot 90 4) /\
    ((1000 - 90) mod (Z.quot 90 4) <> 0 ->
     Z.of_nat (length C) = (1000 - 90) / Z.quot 90 4 + 1).
Proof.
  apply (similarity_trace_length record_1000 record_1000 record_1000 1000 90 10 50);
    by_computation.
Defined.

(** C4, the counterexample. Records of 1000 samples, windows of 100
    samples, step 25: the loop makes 36 windows (starts 0, 25, ..., 875),
    not [floor((1000-100)/25)+1 = 37]. *)
Lemma similarity_trace_1000_100_has_36 :
  exists C L,
    local_similarity 40 [record_1000; record_1000; record_1000] 1000 100 10
      = Ret (C, L) /\
    length C = 36%nat /\
    Z.of_nat (length C) <> (1000 - 100) / 25 + 1.
Proof.
  assert (Hlen : Z.of_nat (length record_1000) = 1000) by reflexivity.
  assert (Hwin : 1 <= Z.quot 100 4) by (vm_compute; congruence).
  assert (Hfuel : (n_windows 1000 100 < 40)%nat) by (vm_compute; lia).
  destruct (local_similarity_spec record_1000 record_1000 record_1000 1000 100 10
              Hlen Hlen Hlen Hwin ltac:(lia) 40%nat Hfuel) as (C & Hrun & Hall).
  apply Forall2_length in Hall. rewrite length_starts in Hall.
  exists C, (centres 1000 100). split; [exact Hrun|].
  rewrite <- Hall. split; [reflexivity|]. vm_compute. congruence.
Qed.



(** C6. For at least one station, every row of [ix] naming three traces
    of [nsamp] samples: the cell returns the per-station traces
    [C_stack2D], each the trace of its station with the same window
    centres [L]; the stack has the length of [L] and of every trace, and
    entry [j] of the stack is the sum of the entries [j] of the traces
    divided by the number of stations. *)
Theorem network_stack_is_elementwise_mean {T : Type} `{NumSqrt T}
    (st : list (list T)) (nsamp : nat) (nsamp_win i_max : Z)
    (fuel : nat) (ix : list (list nat)) (L_prev : list Z) :
  (1 <= nsamp)%nat -> 1 <= Z.quot nsamp_win 4 -> 1 <= i_max ->
  ix <> [] -> forallb (valid_row st nsamp) ix = true ->
  (n_windows (Z.of_nat nsamp) nsamp_win < fuel)%nat ->
  exists row0 rows C_stack L,
    C_stack_cell fuel st nsamp nsamp_win i_max ix L_prev =
      Ret (row0 :: rows, StackTrace C_stack, L) /\
    Forall2 (fun js C => station_trace fuel st nsamp nsamp_win i_max js = Ret (C, L))
            ix (row0 :: rows) /\
    Forall (fun C => length C = length L) (row0 :: rows) /\
    length C_stack = length L /\
    forall j, (j < length L)%nat ->
      nth_error C_stack j =
      Some (div (fold_left add (map (fun C => nth j C zero) rows) (nth j row0 zero))
                (of_nat (length ix))).
Proof.
  intros Hsamp Hwin Hlag Hne Hv Hfuel.
  destruct (stack_loop_spec st nsamp nsamp_win i_max Hsamp Hwin Hlag fuel ix [] L_prev
              Hv Hfuel) as (rows & Hloop & Hall).
  destruct ix as [|js ix]; [congruence|].
  inversion Hall as [|? row0 ? rest [Hrow0 Hlen0] Hrest]; subst.
  assert (Hlens : Forall (fun C => length C = length row0) rest).
  { clear -Hrest Hlen0. induction Hrest as [|? ? ? ? [_ Hl] ? IH]; constructor; auto.
    congruence. }
  destruct (network_stack_spec row0 rest (length (js :: ix)) Hlens)
    as (c & Hstack & Hclen & Hcnth).
  exists row0, rest, c, (centres (Z.of_nat nsamp) nsamp_win).
  assert (HL : length (centres (Z.of_nat nsamp) nsamp_win) = length row0)
    by (rewrite length_centres; auto).
  split.
  - unfold C_stack_cell. rewrite Hloop. cbn [bind fst snd app].
    rewrite Hstack. reflexivity.
  - split.
    + constructor; [assumption|].
      clear -Hrest. induction Hrest as [|? ? ? ? [Hr _] ? IH]; constructor; auto.
    + split; [|split].
      * rewrite HL. constructor; [reflexivity|assumption].
      * congruence.
      * intros j Hj. rewrite Hcnth by lia. reflexivity.
Qed.

Lemma network_stack_is_elementwise_mean_witness :
  exists row0 rows C_stack L,
    C_stack_cell 20 [trace_a; trace_b; trace_c] 30 8 2
      [[0; 1; 2]; [1; 0; 2]; [2; 1; 0]]%nat [] =
      Ret (row0 :: rows, StackTrace C_stack, L) /\
    Forall2 (fun js C =>
               station_trace 20 [trace_a; trace_b; trace_c] 30 8 2 js = Ret (C, L))
            [[0; 1; 2]; [1; 0; 2]; [2; 1; 0]]%nat (row0 :: rows) /\
    Forall (fun C => length C = length L) (row0 :: rows) /\
    length C_stack = length L /\
    forall j, (j < length L)%nat ->
      nth_error C_stack j =
      Some (div (fold_left add (map (fun C => nth j C zero) rows) (nth j row0 zero))
                (of_nat 3)).
Proof.
  apply (network_stack_is_elementwise_mean
           [trace_a; trace_b; trace_c] 30 8 2 20
           [[0; 1; 2]; [1; 0; 2]; [2; 1; 0]]%nat []);
    by_computation.
Defined.

(** ** Exact real arithmetic: sums and inner products *)

Section RealSums.
Local Open Scope R_scope.

Lemma fold_left_Rplus_acc (l : list R) (acc : R) :
  fold_left Rplus l acc = acc + fold_left Rplus l 0.
Proof.
  revert acc. induction l as [|x l IH]; intros acc; simpl.
  - lra.
  - rewrite IH, (IH (0 + x)). lra.
Qed.

Lemma np_sum_nil : np_sum (@nil R) = 0.
Proof. reflexivity. Qed.

Lemma np_sum_cons (x : R) (l : list R) : np_sum (x :: l) = x + np_sum l.
Proof.
  unfold np_sum. simpl. rewrite fold_left_Rplus_acc. lra.
Qed.



Lemma np_sum_nonneg (l : list R) :
  Forall (fun x => 0 <= x) l -> 0 <= np_sum l.
Proof.
  induction 1 as [|x l Hx Hl IH].
  - rewrite np_sum_nil. lra.
  - rewrite np_sum_cons. lra.
Qed.

Lemma dot_nil_l (y : list R) : dot [] y = 0.
Proof. reflexivity. Qed.

Lemma dot_nil_r (x : list R) : dot x [] = 0.
Proof. destruct x; reflexivity. Qed.

Lemma dot_acc (l : list (R * R)) (acc : R) :
  fold_left (fun s p => s + fst p * snd p) l acc =
  acc + fold_left (fun s p => s + fst p * snd p) l 0.
Proof.
  revert acc. induction l as [|q l IH]; intros acc; simpl.
  - lra.
  - rewrite IH, (IH (0 + _)). lra.
Qed.

Lemma dot_cons (u w : R) (x y : list R) :
  dot (u :: x) (w :: y) = u * w + dot x y.
Proof.
  unfold dot. simpl. rewrite dot_acc. lra.
Qed.

(** The inner product is bilinear: dividing the operands by [c] and [d]
    divides the product by [c * d]. *)
Lemma dot_div (c d : R) (x y : list R) :
  c <> 0 -> d <> 0 ->
  dot (map (fun v => v / c) x) (map (fun v => v / d) y) = dot x y / (c * d).
Proof.
  intros Hc Hd. revert y. induction x as [|u x IH]; intros y.
  - simpl. rewrite !dot_nil_l. field; auto.
  - destruct y as [|w y].
    + simpl. rewrite !dot_nil_r. field; auto.
    + cbn [map]. rewrite !dot_cons, IH. field; auto.
Qed.

(** [2 * <x, y> <= <x, x> + <y, y>], also when the lengths differ. *)
Lemma dot_nonneg (x : list R) : 0 <= dot x x.
Proof.
  induction x as [|u x IH].
  - rewrite dot_nil_l. lra.
  - rewrite dot_cons. pose proof (Rle_0_sqr u) as Hsq. unfold Rsqr in Hsq. lra.
Qed.

Lemma dot_le_squares (x y : list R) : 2 * dot x y <= dot x x + dot y y.
Proof.
  revert y. induction x as [|u x IH]; intros y.
  - rewrite !dot_nil_l. pose proof (dot_nonneg y). lra.
  - destruct y as [|w y].
    + rewrite !dot_nil_r. pose proof (dot_nonneg (u :: x)). lra.
    + rewrite !dot_cons. specialize (IH y).
      pose proof (Rle_0_sqr (u - w)) as Hsq. unfold Rsqr in Hsq. lra.
Qed.

Lemma dot_skipn_le (n : nat) (x : list R) : dot (skipn n x) (skipn n x) <= dot x x.
Proof.
  revert x. induction n as [|n IH]; intros x.
  - simpl. lra.
  - destruct x as [|u x].
    + simpl. lra.
    + simpl skipn. rewrite dot_cons. specialize (IH x).
      pose proof (Rle_0_sqr u) as Hsq. unfold Rsqr in Hsq. lra.
Qed.

(** No lag of the autocorrelation exceeds the zero lag. *)
Lemma corr_at_self_le (x : list R) (k : Z) : corr_at x x k <= dot x x.
Proof.
  unfold corr_at. destruct (k <? 0)%Z.
  - pose proof (dot_le_squares x (skipn (Z.to_nat (- k)) x)).
    pose proof (dot_skipn_le (Z.to_nat (- k)) x). lra.
  - pose proof (dot_le_squares (skipn (Z.to_nat k) x) x).
    pose proof (dot_skipn_le (Z.to_nat k) x). lra.
Qed.

Lemma corr_at_div (c d : R) (x y : list R) (k : Z) :
  c <> 0 -> d <> 0 ->
  corr_at (map (fun v => v / c) x) (map (fun v => v / d) y) k =
  corr_at x y k / (c * d).
Proof.
  intros Hc Hd. unfold corr_at.
  destruct (k <? 0)%Z; rewrite ?skipn_map; apply dot_div; assumption.
Qed.

End RealSums.

(** ** Exact real arithmetic: mean, deviation and the two normalizations *)

Section RealNormalization.
Local Open Scope R_scope.

Lemma Rabs_square (y : R) : Rabs y * Rabs y = y * y.
Proof.
  pose proof (Rsqr_abs y) as E. unfold Rsqr in E. symmetry. exact E.
Qed.

Lemma INR_length_pos (x : list R) : x <> [] -> 0 < INR (length x).
Proof.
  intros Hx. destruct x as [|u x]; [congruence|].
  apply lt_0_INR. simpl. lia.
Qed.

Lemma np_sum_squares (f : R -> R) (x : list R) :
  np_sum (map (fun v => f v * f v) x) = dot (map f x) (map f x).
Proof.
  induction x as [|u x IH].
  - reflexivity.
  - cbn [map]. rewrite np_sum_cons, dot_cons, IH. reflexivity.
Qed.

(** The variance is the mean of the squared deviations. *)
Lemma np_std_square (x : list R) :
  x <> [] ->
  np_std x * np_std x = dot (centred x) (centred x) / INR (length x).
Proof.
  intros Hx. pose proof (INR_length_pos x Hx) as Hn.
  unfold np_std. real_ops.
  rewrite sqrt_sqrt.
  - unfold np_mean at 1. real_ops. rewrite length_map. f_equal.
    real_ops.
    rewrite (map_ext _ (fun v => (v - np_mean x) * (v - np_mean x)))
      by (intros v; apply Rabs_square).
    apply (np_sum_squares (fun v => v - np_mean x)).
  - unfold np_mean at 1. real_ops. rewrite length_map.
    apply Rmult_le_pos; [|left; apply Rinv_0_lt_compat; exact Hn].
    apply np_sum_nonneg. apply Forall_forall. intros y Hy.
    apply in_map_iff in Hy as (v & <- & _). real_ops.
    apply Rmult_le_pos; apply Rabs_pos.
Qed.

Lemma np_std_nonneg (x : list R) : 0 <= np_std x.
Proof. unfold np_std. real_ops. apply sqrt_pos. Qed.

Lemma normalize_a_centred (x : list R) :
  normalize_a x = map (fun v => v / (np_std x * INR (length x))) (centred x).
Proof. unfold normalize_a, centred. rewrite map_map. reflexivity. Qed.

Lemma normalize_b_centred (x : list R) :
  normalize_b x = map (fun v => v / np_std x) (centred x).
Proof. unfold normalize_b, centred. rewrite map_map. reflexivity. Qed.

(** Every lag of the correlation of the normalized operands is the
    correlation of the centred operands over [len * std(a) * std(b)]:
    the length enters once. *)
Lemma corr_at_normalized (a b : list R) (k : Z) :
  a <> [] -> np_std a <> 0 -> np_std b <> 0 ->
  corr_at (normalize_a a) (normalize_b b) k =
  corr_at (centred a) (centred b) k / (INR (length a) * np_std a * np_std b).
Proof.
  intros Ha Hsa Hsb. pose proof (INR_length_pos a Ha) as Hn.
  rewrite normalize_a_centred, normalize_b_centred, corr_at_div.
  - f_equal. ring.
  - apply Rmult_integral_contrapositive. split; lra.
  - assumption.
Qed.






(** [np.max] over the reals: the bound that is attained. *)
Lemma fold_left_Rmax_attained (l : list R) (acc m : R) :
  Forall (fun x => x <= m) l -> acc <= m -> acc = m \/ In m l ->
  fold_left Rmax l acc = m.
Proof.
  intros Hall. revert acc. induction Hall as [|x l Hx Hl IH]; intros acc Hacc Hin; simpl.
  - destruct Hin as [|[]]. assumption.
  - apply IH.
    + apply Rmax_lub; assumption.
    + destruct Hin as [->|[->|Hin]].
      * left. apply Rmax_left. assumption.
      * left. apply Rmax_right. assumption.
      * right. assumption.
Qed.

Lemma np_max_attained (l : list R) (m : R) :
  Forall (fun x => x <= m) l -> In m l -> np_max l = Ret m.
Proof.
  intros Hall Hin. destruct l as [|x l]; [contradiction|].
  simpl. f_equal. inversion Hall; subst.
  apply fold_left_Rmax_attained; auto.
Qed.

End RealNormalization.

(** ** The claims about [norm_xcorr] *)

Section RealClaims.
Local Open Scope R_scope.

(** The autocorrelation of a sequence of nonzero deviation, searched with
    a lag limit from one up to the length minus one, is exactly one: the
    zero lag is in the slice, it is one, and no other lag exceeds it. *)
Lemma norm_xcorr_self_is_one (a : list R) (max_lag : Z) :
  np_std a <> 0 -> (1 <= max_lag < Z.of_nat (length a))%Z ->
  norm_xcorr a a max_lag = Ret 1.
Proof.
  intros Hs HL.
  assert (Ha : a <> []) by (intros ->; simpl in HL; lia).
  pose proof (INR_length_pos a Ha) as Hn.
  pose proof (np_std_nonneg a) as Hs0.
  pose proof (np_std_square a Ha) as Hsq.
  assert (Hpos : 0 < np_std a) by lra.
  assert (Hden : 0 < INR (length a) * np_std a * np_std a)
    by (repeat apply Rmult_lt_0_compat; assumption).
  assert (Hdot : dot (centred a) (centred a) = INR (length a) * np_std a * np_std a).
  { rewrite Rmult_assoc, Hsq. field. lra. }
  rewrite norm_xcorr_window by (auto; lia).
  apply np_max_attained.
  - apply Forall_forall. intros y Hy.
    apply in_map_iff in Hy as (k & <- & _).
    rewrite corr_at_normalized by assumption.
    pose proof (corr_at_self_le (centred a) k) as Hle.
    apply (Rmult_le_reg_r (INR (length a) * np_std a * np_std a)); [assumption|].
    unfold Rdiv. rewrite Rmult_assoc, Rinv_l by lra. lra.
  - apply in_map_iff. exists 0%Z. split.
    + rewrite corr_at_normalized by assumption.
      unfold corr_at. cbn [Z.ltb Z.compare Z.to_nat skipn]. rewrite Hdot. field. lra.
    + unfold lags. apply in_map_iff. exists (Z.to_nat max_lag). split; [lia|].
      apply in_seq. lia.
Qed.

Lemma np_mean_pm1 : np_mean [1; -1] = 0.
Proof. unfold np_mean, np_sum. simpl. lra. Qed.

Lemma np_std_pm1 : np_std [1; -1] = 1.
Proof.
  unfold np_std. rewrite np_mean_pm1. unfold np_mean, np_sum. real_ops.
  simpl. rewrite !Rabs_square.
  replace ((0 + (1 - 0) * (1 - 0) + (-1 - 0) * (-1 - 0)) / (1 + 1)) with 1 by lra.
  apply sqrt_1.
Qed.

(** C3, the failing input. The sequence [1, -1] has mean zero and
    deviation one, and [norm_xcorr] of it with itself at [max_lag = 0]
    raises [ValueError] (the slice [xcorr[i:i]] is empty) where the claim
    promises 1.0. *)
Theorem norm_xcorr_self_lag0_raises :
  np_mean [1; -1] = 0 /\ np_std [1; -1] = 1 /\
  norm_xcorr [1; -1] [1; -1] 0 = Raise ValueError.
Proof.
  split; [exact np_mean_pm1|]. split; [exact np_std_pm1|].
  apply norm_xcorr_lag0_raises.
Qed.






End RealClaims.

(** C1, the failing input. In binary64, with [a = [1,-1,-1,1]],
    [b = [-1,-1,1,1]] and [max_lag = 1]: the code returns 0, the maximum
    over the lags -1 and 0, while the correlation at lag +1 is 0.75, which
    is the maximum over the lags -1, 0, +1 that the claim describes. *)
Theorem norm_xcorr_misses_lag_plus_max_lag :
  let a := [1; -1; -1; 1]%float in
  let b := [-1; -1; 1; 1]%float in
  norm_xcorr a b 1 = Ret 0%float /\
  map (corr_at (normalize_a a) (normalize_b b)) [-1; 0; 1]
    = [(-0.75)%float; 0%float; 0.75%float] /\
  np_max (map (corr_at (normalize_a a) (normalize_b b)) [-1; 0; 1])
    = Ret 0.75%float.
Proof. vm_compute. repeat split. Qed.

(** ** Binary64: zeros and NaN through the arithmetic *)

Section FloatShapes.
Local Open Scope float_scope.

Lemma fnan_eq (x : float) : fnan x -> x = nan.
Proof.
  unfold fnan. intros E. rewrite <- (SF2Prim_Prim2SF x), E. reflexivity.
Qed.

Lemma pzero_zero : pzero 0.
Proof. reflexivity. Qed.

Lemma is_zero_fzero (x : float) : PrimFloat.is_zero x = true -> fzero x.
Proof.
  unfold PrimFloat.is_zero. rewrite FloatAxioms.eqb_spec.
  change (Prim2SF PrimFloat.zero) with (S754_zero false).
  unfold fzero. destruct (Prim2SF x) as [s| | |s m e]; simpl; intros E;
    try discriminate.
  - eexists. reflexivity.
  - destruct s; discriminate.
  - destruct s; discriminate.
Qed.

Lemma add_nan_l (y : float) : nan + y = nan.
Proof.
  apply fnan_eq. unfold fnan. rewrite FloatAxioms.add_spec.
  change (Prim2SF nan) with S754_nan. reflexivity.
Qed.

Lemma add_nan_r (x : float) : x + nan = nan.
Proof.
  apply fnan_eq. unfold fnan. rewrite FloatAxioms.add_spec.
  change (Prim2SF nan) with S754_nan. destruct (Prim2SF x); reflexivity.
Qed.

Lemma mul_nan_l (y : float) : nan * y = nan.
Proof.
  apply fnan_eq. unfold fnan. rewrite FloatAxioms.mul_spec.
  change (Prim2SF nan) with S754_nan. reflexivity.
Qed.

Lemma mul_nan_r (x : float) : x * nan = nan.
Proof.
  apply fnan_eq. unfold fnan. rewrite FloatAxioms.mul_spec.
  change (Prim2SF nan) with S754_nan. destruct (Prim2SF x); reflexivity.
Qed.

Lemma div_nan_l (y : float) : nan / y = nan.
Proof.
  apply fnan_eq. unfold fnan. rewrite FloatAxioms.div_spec.
  change (Prim2SF nan) with S754_nan. reflexivity.
Qed.

(** A zero divided by a zero or a NaN is NaN. *)
Lemma div_zero_by_zn (x y : float) : fzero x -> fzn y -> x / y = nan.
Proof.
  intros [s Hx] [[t Hy]|Hy]; apply fnan_eq; unfold fnan;
    rewrite FloatAxioms.div_spec, Hx, Hy; reflexivity.
Qed.

(** A zero divided by anything is a zero or NaN. *)
Lemma div_zero_fzn (x y : float) : fzero x -> fzn (x / y).
Proof.
  intros [s Hx]. unfold fzn, fzero, fnan. rewrite FloatAxioms.div_spec, Hx.
  destruct (Prim2SF y); simpl; eauto.
Qed.

Lemma mul_fzn (x y : float) : fzn x -> fzn (x * y).
Proof.
  intros [[s Hx]|Hx]; unfold fzn, fzero, fnan; rewrite FloatAxioms.mul_spec, Hx.
  - destruct (Prim2SF y); simpl; eauto.
  - right. reflexivity.
Qed.

Lemma sqrt_fzn (x : float) : fzn x -> fzn (PrimFloat.sqrt x).
Proof.
  intros [[s Hx]|Hx]; unfold fzn, fzero, fnan; rewrite FloatAxioms.sqrt_spec, Hx; simpl; eauto.
Qed.

Lemma abs_fzero (x : float) : fzero x -> pzero (PrimFloat.abs x).
Proof.
  intros [s Hx]. unfold pzero. rewrite FloatAxioms.abs_spec, Hx. reflexivity.
Qed.

Lemma mul_pzero (x y : float) : pzero x -> pzero y -> pzero (x * y).
Proof.
  unfold pzero. intros Hx Hy. rewrite FloatAxioms.mul_spec, Hx, Hy. reflexivity.
Qed.

Lemma add_pzero (x y : float) : pzero x -> pzero y -> pzero (x + y).
Proof.
  unfold pzero. intros Hx Hy. rewrite FloatAxioms.add_spec, Hx, Hy. reflexivity.
Qed.

Lemma pzero_fzero (x : float) : pzero x -> fzero x.
Proof. intros Hx. exists false. exact Hx. Qed.

End FloatShapes.

Section FloatSilence.
Local Open Scope float_scope.

Lemma fold_add_pzero (l : list float) (acc : float) :
  pzero acc -> Forall pzero l -> pzero (fold_left PrimFloat.add l acc).
Proof.
  intros Hacc Hall. revert acc Hacc.
  induction Hall as [|x l Hx Hl IH]; intros acc Hacc; simpl.
  - exact Hacc.
  - apply IH. apply add_pzero; assumption.
Qed.

Lemma silent_deviation (x : list float) (v : float) :
  silent x = true -> In v x -> fzero (v - np_mean x).
Proof.
  unfold silent. intros Hs Hv. rewrite forallb_forall in Hs.
  apply is_zero_fzero. exact (Hs v Hv).
Qed.

(** The deviation of a silent window is a zero or NaN. *)
Lemma np_std_silent (x : list float) : silent x = true -> fzn (np_std x).
Proof.
  intros Hs. unfold np_std. apply sqrt_fzn.
  unfold np_mean at 1. apply div_zero_fzn. apply pzero_fzero.
  apply fold_add_pzero; [exact pzero_zero|].
  apply Forall_forall. intros y Hy. apply in_map_iff in Hy as (v & <- & Hv).
  pose proof (abs_fzero _ (silent_deviation x v Hs Hv)) as Habs.
  apply mul_pzero; exact Habs.
Qed.

(** Both normalizations turn a silent window into NaN throughout. *)
Lemma normalize_a_silent (x : list float) :
  silent x = true -> Forall (eq nan) (normalize_a x).
Proof.
  intros Hs. apply Forall_forall. intros y Hy.
  apply in_map_iff in Hy as (v & <- & Hv). symmetry.
  apply div_zero_by_zn.
  - exact (silent_deviation x v Hs Hv).
  - apply mul_fzn. exact (np_std_silent x Hs).
Qed.

Lemma normalize_b_silent (x : list float) :
  silent x = true -> Forall (eq nan) (normalize_b x).
Proof.
  intros Hs. apply Forall_forall. intros y Hy.
  apply in_map_iff in Hy as (v & <- & Hv). symmetry.
  apply div_zero_by_zn.
  - exact (silent_deviation x v Hs Hv).
  - exact (np_std_silent x Hs).
Qed.

Lemma fold_dot_nan (l : list (float * float)) :
  fold_left (fun acc p => acc + fst p * snd p) l nan = nan.
Proof.
  induction l as [|p l IH]; simpl; [reflexivity|]. now rewrite add_nan_l.
Qed.

Lemma dot_nan_l (x y : list float) :
  Forall (eq nan) x -> x <> [] -> y <> [] -> dot x y = nan.
Proof.
  intros Hall Hx Hy. destruct x as [|u x]; [congruence|].
  destruct y as [|w y]; [congruence|].
  inversion Hall as [|? ? Hu _]; subst.
  unfold dot. simpl. rewrite mul_nan_l, add_nan_r. apply fold_dot_nan.
Qed.

Lemma dot_nan_r (x y : list float) :
  Forall (eq nan) y -> x <> [] -> y <> [] -> dot x y = nan.
Proof.
  intros Hall Hx Hy. destruct x as [|u x]; [congruence|].
  destruct y as [|w y]; [congruence|].
  inversion Hall as [|? ? Hw _]; subst.
  unfold dot. simpl. rewrite mul_nan_r, add_nan_r. apply fold_dot_nan.
Qed.

Lemma Forall_skipn {A : Type} (P : A -> Prop) (n : nat) (l : list A) :
  Forall P l -> Forall P (skipn n l).
Proof.
  intros Hall. rewrite <- (firstn_skipn n l) in Hall.
  apply Forall_app in Hall. tauto.
Qed.

Lemma Forall_firstn {A : Type} (P : A -> Prop) (n : nat) (l : list A) :
  Forall P l -> Forall P (firstn n l).
Proof.
  intros Hall. rewrite <- (firstn_skipn n l) in Hall.
  apply Forall_app in Hall. tauto.
Qed.

Lemma skipn_nonempty {A : Type} (n : nat) (l : list A) :
  (n < length l)%nat -> skipn n l <> [].
Proof.
  intros Hn E. apply (f_equal (@length A)) in E.
  rewrite length_skipn in E. simpl in E. lia.
Qed.

(** Every lag at which the operands overlap is NaN as soon as one
    operand is NaN throughout. *)
Lemma corr_at_nan (a b : list float) (k : Z) :
  Forall (eq nan) a \/ Forall (eq nan) b ->
  a <> [] -> b <> [] ->
  (- Z.of_nat (length b) < k < Z.of_nat (length a))%Z ->
  corr_at a b k = nan.
Proof.
  intros Hnan Ha Hb Hk. unfold corr_at.
  destruct (Z.ltb_spec k 0); destruct Hnan as [Hn|Hn].
  - apply dot_nan_l; auto. apply skipn_nonempty. lia.
  - apply dot_nan_r; auto using Forall_skipn. apply skipn_nonempty. lia.
  - apply dot_nan_l; auto using Forall_skipn. apply skipn_nonempty. lia.
  - apply dot_nan_r; auto. apply skipn_nonempty. lia.
Qed.

Lemma fold_fmax_nan (l : list float) : fold_left fmax l nan = nan.
Proof. induction l as [|x l IH]; simpl; [reflexivity|exact IH]. Qed.

Lemma np_max_nan (l : list float) :
  l <> [] -> Forall (eq nan) l -> np_max l = Ret nan.
Proof.
  intros Hl Hall. destruct l as [|x l]; [congruence|].
  inversion Hall; subst. simpl. f_equal. apply fold_fmax_nan.
Qed.

(** [norm_xcorr] of a silent operand: no exception, and NaN. *)
Lemma norm_xcorr_silent (a b : list float) (max_lag : Z) :
  length a = length b -> a <> [] -> (1 <= max_lag)%Z ->
  silent a = true \/ silent b = true ->
  norm_xcorr a b max_lag = Ret nan.
Proof.
  intros Hlen Ha HL Hs.
  assert (Hn : (1 <= length a)%nat) by (destruct a; simpl; [congruence|lia]).
  assert (Ha' : normalize_a a <> []).
  { intros E. apply (f_equal (@length float)) in E.
    rewrite length_normalize_a in E. simpl in E. lia. }
  assert (Hb' : normalize_b b <> []).
  { intros E. apply (f_equal (@length float)) in E.
    rewrite length_normalize_b in E. simpl in E. lia. }
  assert (Hnan : Forall (eq nan) (normalize_a a) \/ Forall (eq nan) (normalize_b b)).
  { destruct Hs as [Hs|Hs]; [left; now apply normalize_a_silent
                            |right; now apply normalize_b_silent]. }
  unfold norm_xcorr. rewrite correlate_full_ret by assumption. cbn [bind].
  apply np_max_nan.
  - rewrite length_normalize_a.
    apply py_slice_lag_window_nonempty with (n := length a); auto.
    rewrite length_map, length_seq, ?length_normalize_a, ?length_normalize_b. lia.
  - unfold py_slice. apply Forall_firstn, Forall_skipn.
    apply Forall_forall. intros y Hy. apply in_map_iff in Hy as (j & <- & Hj).
    apply in_seq in Hj. symmetry. apply corr_at_nan; auto.
    rewrite length_normalize_a, length_normalize_b in *. lia.
Qed.

End FloatSilence.

(** C5 (as amended). In binary64, for operands of one positive length of
    which at least one is silent and a lag limit of at least one:
    [norm_xcorr] raises nothing and returns NaN, which is not a zero; and
    nothing replaces it, since the value [(c1+c2)/2.] that the loop
    appends is NaN as soon as one of the two correlations is. *)
Theorem norm_xcorr_silent_window_is_nan (a b : list float) (max_lag : Z) :
  length a = length b -> a <> [] -> 1 <= max_lag ->
  silent a = true \/ silent b = true ->
  norm_xcorr a b max_lag = Ret nan /\
  PrimFloat.is_zero nan = false /\
  forall c : float,
    div (add nan c) (of_nat 2) = nan /\ div (add c nan) (of_nat 2) = nan.
Proof.
  intros Hlen Ha HL Hs. split; [now apply norm_xcorr_silent|].
  split; [reflexivity|]. intros c. cbn [div add Num_float].
  rewrite add_nan_l, add_nan_r, div_nan_l. split; reflexivity.
Qed.

Lemma norm_xcorr_silent_window_is_nan_witness :
  norm_xcorr [0; 0; 0; 0]%float [1; 2; 3; 4]%float 2 = Ret nan /\
  PrimFloat.is_zero nan = false /\
  forall c : float,
    div (add nan c) (of_nat 2) = nan /\ div (add c nan) (of_nat 2) = nan.
Proof.
  apply (norm_xcorr_silent_window_is_nan [0; 0; 0; 0]%float [1; 2; 3; 4]%float 2);
    first [ reflexivity | discriminate | lia | left; reflexivity ].
Defined.

(** C5, the counterexample. A window of zeros is silent; [norm_xcorr] of
    it returns NaN, not zero; and in the stack of three traces of which
    one starts with silence, the NaN of the silent windows reaches the
    network stack. *)
Lemma silent_window_similarity_is_not_zero :
  silent [0; 0; 0; 0]%float = true /\
  norm_xcorr [0; 0; 0; 0]%float [1; 2; 3; 4]%float 2 = Ret nan /\
  PrimFloat.is_zero nan = false /\
  exists C_stack2D C_stack L,
    C_stack_cell 20 [quiet_then_loud; loud_a; loud_b] 10 4 1
      [[0; 1; 2]; [1; 2; 0]; [2; 1; 0]]%nat [] =
      Ret (C_stack2D, StackTrace C_stack, L) /\
    nth_error C_stack 0 = Some nan.
Proof.
  repeat split; try reflexivity.
  eexists _, _, _. split; vm_compute; reflexivity.
Qed.

(** ** The lag limit and the backazimuth, in exact arithmetic *)

Section Rationals.
Local Open Scope Q_scope.







End Rationals.

Section RationalClaims.
Local Open Scope Q_scope.






End RationalClaims.


(** * Further properties of the code *)

(** ** [norm_xcorr]: errors, and lag limits beyond the length *)

Lemma py_slice_seq_bounds (n : nat) (s e : Z) :
  py_slice (seq 0 n) s e =
  seq (Z.to_nat (slice_bound (Z.of_nat n) s))
      (Z.to_nat (slice_bound (Z.of_nat n) e - slice_bound (Z.of_nat n) s)).
Proof.
  unfold py_slice. rewrite length_seq, skipn_seq, firstn_seq. simpl.
  f_equal. unfold slice_bound.
  destruct (Z.ltb_spec s 0); destruct (Z.ltb_spec e 0); lia.
Qed.

Section NormXcorrEdges.
Context {T : Type} `{NumSqrt T}.

Lemma normalize_a_nil_iff (a : list T) : normalize_a a = [] <-> a = [].
Proof.
  split; intros E; [|now subst].
  apply (f_equal (@length T)) in E. rewrite length_normalize_a in E.
  destruct a; [reflexivity|discriminate].
Qed.

Lemma normalize_b_nil_iff (b : list T) : normalize_b b = [] <-> b = [].
Proof.
  split; intros E; [|now subst].
  apply (f_equal (@length T)) in E. rewrite length_normalize_b in E.
  destruct b; [reflexivity|discriminate].
Qed.

(** The slice of [norm_xcorr], as lags, for operands of one positive
    length: whatever the lag limit. *)
Lemma norm_xcorr_slice (a b : list T) (max_lag : Z) :
  length a = length b -> a <> [] ->
  let n := Z.of_nat (length a + length a - 1) in
  let i := Z.of_nat (length a) - 1 in
  let s := slice_bound n (i - max_lag) in
  let e := slice_bound n (i + max_lag) in
  norm_xcorr a b max_lag =
  np_max (map (corr_at (normalize_a a) (normalize_b b))
              (lags (s - i) (Z.to_nat (e - s)))).
Proof.
  intros Hlen Ha n i s e.
  assert (Hn : (1 <= length a)%nat) by (destruct a; simpl; [congruence|lia]).
  unfold norm_xcorr. rewrite correlate_full_ret.
  2: now rewrite normalize_a_nil_iff.
  2: { rewrite normalize_b_nil_iff. intros ->. simpl in Hlen. lia. }
  cbn [bind]. rewrite py_slice_map, py_slice_seq_bounds.
  rewrite !length_normalize_a, !length_normalize_b, <- Hlen.
  fold n i s e. f_equal. unfold lags. rewrite map_map, map_seq_from.
  apply map_ext. intros j. f_equal.
  assert (0 <= s)
    by (unfold s, slice_bound; destruct (Z.ltb_spec (i - max_lag) 0); lia).
  lia.
Qed.

(** Empty operands or a lag limit below one: [ValueError]. *)
Lemma norm_xcorr_raises (a b : list T) (max_lag : Z) :
  length a = length b -> a = [] \/ max_lag <= 0 ->
  norm_xcorr a b max_lag = Raise ValueError.
Proof.
  intros Hlen [->|HL]; [reflexivity|].
  destruct a as [|u a']; [reflexivity|].
  rewrite norm_xcorr_slice by (auto; discriminate).
  cbv zeta. set (n := Z.of_nat _). set (i := Z.of_nat _ - 1).
  assert (Hi : n = 2 * i + 1) by (unfold n, i; cbn [length]; lia).
  assert (0 <= i) by (unfold i; cbn [length]; lia).
  clearbody n i.
  replace (Z.to_nat _) with O; [reflexivity|].
  unfold slice_bound.
  destruct (Z.ltb_spec (i - max_lag) 0); destruct (Z.ltb_spec (i + max_lag) 0); lia.
Qed.

(** For operands of one length, [norm_xcorr] raises [ValueError] exactly
    when the operands are empty or the lag limit is below one, and returns
    a number otherwise. *)
Theorem norm_xcorr_raises_iff (a b : list T) (max_lag : Z) :
  length a = length b ->
  (norm_xcorr a b max_lag = Raise ValueError <-> a = [] \/ max_lag <= 0) /\
  ((exists v, norm_xcorr a b max_lag = Ret v) <-> a <> [] /\ 1 <= max_lag).
Proof.
  intros Hlen.
  pose proof (norm_xcorr_raises a b max_lag Hlen) as Hraise.
  assert (Hret : a <> [] /\ 1 <= max_lag -> exists v, norm_xcorr a b max_lag = Ret v).
  { intros [Ha HL]. now apply norm_xcorr_returns. }
  split; split; auto.
  - intros E. destruct a as [|u a']; [now left|right].
    destruct (Z.le_gt_cases max_lag 0) as [|HL]; [assumption|exfalso].
    destruct Hret as [v Hv]; [split; [discriminate|lia]|]. congruence.
  - intros [v Hv]. split.
    + intros ->. discriminate.
    + destruct (Z.le_gt_cases max_lag 0) as [HL|HL]; [|lia].
      rewrite Hraise in Hv by auto. discriminate.
Qed.

(** A lag limit that reaches the length of the operands makes the start
    index [i - max_lag] negative, and Python counts it from the end: from
    the length up to three lengths minus two the slice holds the lags
    [2*len - 1 - max_lag .. len - 1] only, so up to twice the length minus
    two the zero lag is not searched; from three lengths minus two on it
    holds every lag. *)
Theorem norm_xcorr_lag_limit_beyond_length (a b : list T) (max_lag : Z) :
  length a = length b -> a <> [] ->
  let n := Z.of_nat (length a) in
  (n <= max_lag <= 3 * n - 2 ->
   norm_xcorr a b max_lag =
   np_max (map (corr_at (normalize_a a) (normalize_b b))
               (lags (2 * n - 1 - max_lag) (Z.to_nat (max_lag - n + 1))))) /\
  (3 * n - 2 <= max_lag ->
   norm_xcorr a b max_lag =
   np_max (map (corr_at (normalize_a a) (normalize_b b))
               (lags (- (n - 1)) (Z.to_nat (2 * n - 1))))).
Proof.
  intros Hlen Ha n.
  assert (Hn : 1 <= n) by (unfold n; destruct a; simpl; [congruence|lia]).
  split; intros HL; rewrite norm_xcorr_slice by assumption; cbv zeta;
    fold n; replace (Z.of_nat (length a + length a - 1)) with (2 * n - 1) by lia;
    clearbody n; unfold slice_bound;
    destruct (Z.ltb_spec (n - 1 - max_lag) 0); try lia;
    destruct (Z.ltb_spec (n - 1 + max_lag) 0); try lia;
    f_equal; f_equal; f_equal; lia.
Qed.

End NormXcorrEdges.

(** ** The sliding loop: where the windows lie, and when it fails *)

Lemma py_slice_length_bounds {A : Type} (x : list A) (s e : Z) :
  length (py_slice x s e) =
  Z.to_nat (slice_bound (Z.of_nat (length x)) e - slice_bound (Z.of_nat (length x)) s).
Proof.
  unfold py_slice. rewrite length_firstn, length_skipn. unfold slice_bound.
  destruct (Z.ltb_spec s 0); destruct (Z.ltb_spec e 0); lia.
Qed.

(** Every window the loop makes starts before [nsamp - nsamp_win]. *)
Lemma window_start_bound (nsamp nsamp_win : Z) (j : nat) :
  1 <= Z.quot nsamp_win 4 ->
  (j < n_windows nsamp nsamp_win)%nat ->
  Z.of_nat j * Z.quot nsamp_win 4 < nsamp - nsamp_win.
Proof.
  unfold n_windows, windows_left. set (s := Z.quot nsamp_win 4). clearbody s.
  intros Hs Hj. set (d := nsamp - nsamp_win) in *.
  replace (d - 0 + s - 1) with (d + s - 1) in Hj by lia.
  assert (Hq : Z.of_nat j + 1 <= (d + s - 1) / s) by lia.
  pose proof (Z.mul_div_le (d + s - 1) s ltac:(lia)) as Hm.
  assert (s * (Z.of_nat j + 1) <= s * ((d + s - 1) / s))
    by (apply Z.mul_le_mono_nonneg_l; lia).
  lia.
Qed.

Section LoopEdges.
Context {T : Type} `{NumSqrt T}.
Variables (r0 r1 r2 : list T) (nsamp nsamp_win i_max : Z).
Hypothesis Hlen0 : Z.of_nat (length r0) = nsamp.
Hypothesis Hlen1 : Z.of_nat (length r1) = nsamp.
Hypothesis Hlen2 : Z.of_nat (length r2) = nsamp.

(** Every window lies inside the record and ends before its last
    sample, which no window ever holds; the recorded centres are the
    window starts plus [int(nsamp_win/2)], they are indices of the record
    and go up by the step. *)
Theorem windows_lie_inside_the_record (fuel : nat) :
  1 <= Z.quot nsamp_win 4 -> 1 <= i_max ->
  (n_windows nsamp nsamp_win < fuel)%nat ->
  exists C L,
    local_similarity fuel [r0; r1; r2] nsamp nsamp_win i_max = Ret (C, L) /\
    (forall j c, nth_error L j = Some c ->
       let l := Z.of_nat j * Z.quot nsamp_win 4 in
       c = l + Z.quot nsamp_win 2 /\
       0 <= l /\ l + nsamp_win <= nsamp - 1 /\
       length (py_slice r0 l (l + nsamp_win)) = Z.to_nat nsamp_win /\
       0 <= c < nsamp - 1) /\
    (forall j c c', nth_error L j = Some c -> nth_error L (S j) = Some c' ->
       c' = c + Z.quot nsamp_win 4).
Proof.
  intros Hwin Hlag Hfuel.
  destruct (local_similarity_spec r0 r1 r2 nsamp nsamp_win i_max
              Hlen0 Hlen1 Hlen2 Hwin Hlag fuel Hfuel) as (C & Hrun & _).
  exists C, (centres nsamp nsamp_win). split; [exact Hrun|].
  pose proof (quot4_ge1 _ Hwin) as Hw.
  assert (Hhalf : 0 <= Z.quot nsamp_win 2 < nsamp_win).
  { split; [apply Z.quot_pos; lia|apply Z.quot_lt; lia]. }
  assert (Hidx : forall j c, nth_error (centres nsamp nsamp_win) j = Some c ->
                 (j < n_windows nsamp nsamp_win)%nat).
  { intros j c Hj. rewrite <- length_centres. apply nth_error_Some. congruence. }
  split.
  - intros j c Hj l. pose proof (Hidx j c Hj) as Hlt.
    rewrite nth_error_centres in Hj by assumption. injection Hj as <-.
    pose proof (window_start_bound nsamp nsamp_win j Hwin Hlt) as Hb.
    fold l in Hb |- *.
    assert (0 <= l) by (unfold l; apply Z.mul_nonneg_nonneg; lia).
    repeat split; try lia.
    rewrite py_slice_length by lia. f_equal. lia.
  - intros j c c' Hj Hj'.
    pose proof (Hidx j c Hj). pose proof (Hidx (S j) c' Hj').
    rewrite nth_error_centres in Hj, Hj' by assumption.
    assert (Ec : c = Z.of_nat j * Z.quot nsamp_win 4 + Z.quot nsamp_win 2)
      by congruence.
    assert (Ec' : c' = Z.of_nat (S j) * Z.quot nsamp_win 4 + Z.quot nsamp_win 2)
      by congruence.
    rewrite Ec, Ec', Nat2Z.inj_succ. ring.
Qed.

(** With a lag limit below one and at least one window to make, the loop
    raises [ValueError] in its first window. *)
Theorem lag_limit_below_one_stops_the_loop (fuel : nat) :
  i_max <= 0 -> nsamp_win < nsamp ->
  local_similarity (S fuel) [r0; r1; r2] nsamp nsamp_win i_max = Raise ValueError.
Proof.
  intros Hlag Hwin. unfold local_similarity. cbn [similarity_loop].
  destruct (Z.ltb_spec 0 (nsamp - nsamp_win)); [|lia].
  rewrite window_similarity_rows.
  assert (E : norm_xcorr (py_slice r0 0 (0 + nsamp_win))
                         (py_slice r1 0 (0 + nsamp_win)) i_max = Raise ValueError).
  { apply norm_xcorr_raises; [|now right].
    rewrite !py_slice_length_bounds. congruence. }
  rewrite E. reflexivity.
Qed.

(** A window of one to three samples has the step [int(nsamp_win/4) = 0]:
    the loop makes the window at 0 again and again and never ends. *)
Theorem short_window_loops_forever (fuel : nat) :
  1 <= nsamp_win <= 3 -> nsamp_win < nsamp -> 1 <= i_max ->
  local_similarity fuel [r0; r1; r2] nsamp nsamp_win i_max = OutOfFuel.
Proof.
  intros Hw Hn Hlag. unfold local_similarity. generalize (@nil T) (@nil Z).
  assert (Hstep : Z.quot nsamp_win 4 = 0) by (apply Z.quot_small; lia).
  assert (Hbody : exists c, window_similarity [r0; r1; r2] nsamp_win i_max 0 = Ret c).
  { rewrite window_similarity_rows.
    assert (Hl : forall r : list T, Z.of_nat (length r) = nsamp ->
                   length (py_slice r 0 (0 + nsamp_win)) = Z.to_nat nsamp_win).
    { intros r Hr. rewrite py_slice_length by lia. f_equal. lia. }
    assert (Hne : py_slice r0 0 (0 + nsamp_win) <> []).
    { intros E. apply (f_equal (@length T)) in E. rewrite Hl in E by assumption.
      simpl in E. lia. }
    destruct (norm_xcorr_returns (py_slice r0 0 (0 + nsamp_win))
                (py_slice r1 0 (0 + nsamp_win)) i_max) as [c1 ->];
      [rewrite !Hl by assumption; reflexivity | assumption | assumption |].
    destruct (norm_xcorr_returns (py_slice r0 0 (0 + nsamp_win))
                (py_slice r2 0 (0 + nsamp_win)) i_max) as [c2 ->];
      [rewrite !Hl by assumption; reflexivity | assumption | assumption |].
    eexists. reflexivity. }
  destruct Hbody as [c Hc].
  induction fuel as [|fuel' IH]; intros C L; cbn [similarity_loop]; [reflexivity|].
  destruct (Z.ltb_spec 0 (nsamp - nsamp_win)); [|lia].
  rewrite Hc. cbn [bind]. rewrite Hstep, Z.add_0_l. apply IH.
Qed.

End LoopEdges.

(** ** The station loop: more than two neighbours *)

Section Neighbours.
Context {T : Type} `{NumSqrt T}.

Lemma set_row_beyond (data : list (list T)) (l : nat) (row : list T) :
  (length data <= l)%nat -> set_row data l row = Raise IndexError.
Proof.
  revert l. induction data as [|old rest IH]; intros l Hl.
  - destruct l; reflexivity.
  - destruct l as [|l]; [simpl in Hl; lia|].
    cbn [set_row]. rewrite IH by (simpl in Hl; lia). reflexivity.
Qed.

Lemma set_row_within (data : list (list T)) (l n : nat) (row : list T) :
  Forall (fun r => length r = n) data -> length row = n ->
  (l < length data)%nat ->
  exists data',
    set_row data l row = Ret data' /\
    Forall (fun r => length r = n) data' /\
    length data' = length data.
Proof.
  intros Hrows Hrow. revert l.
  induction Hrows as [|old rest Hold Hrest IH]; intros l Hl; [simpl in Hl; lia|].
  destruct l as [|l]; cbn [set_row].
  - rewrite Hrow, Hold, Nat.eqb_refl. eexists. split; [reflexivity|].
    split; [constructor; assumption|reflexivity].
  - destruct (IH l) as (rest' & -> & Hall & Hlen); [simpl in Hl; lia|].
    cbn [bind]. eexists. split; [reflexivity|].
    split; [constructor; assumption|simpl; now rewrite Hlen].
Qed.

(** Once the row counter has passed the last row of [data], the next
    station index raises [IndexError], provided its trace can be read and
    scaled. *)
Lemma fill_data_overflow (st : list (list T)) (nsamp : nat) (js : list nat)
    (l : nat) (data : list (list T)) :
  (1 <= nsamp)%nat ->
  forallb (fun j => match nth_error st j with
                    | Some tr => Nat.eqb (length tr) nsamp
                    | None => false
                    end) js = true ->
  Forall (fun row => length row = nsamp) data ->
  (l <= length data < l + length js)%nat ->
  fill_data st js l data = Raise IndexError.
Proof.
  intros Hn. revert l data.
  induction js as [|j js IH]; intros l data Hv Hrows Hlen.
  - simpl in Hlen. lia.
  - cbn [forallb] in Hv. apply andb_true_iff in Hv as [Hj Hv].
    destruct (nth_error st j) as [tr|] eqn:E; [|discriminate].
    apply Nat.eqb_eq in Hj.
    destruct (scale_trace_returns tr) as (m & _ & Hs).
    { intros ->. simpl in Hj. lia. }
    cbn [fill_data]. unfold row_at. rewrite E. cbn [bind]. rewrite Hs. cbn [bind].
    destruct (Nat.le_gt_cases (length data) l) as [Hle|Hgt].
    + rewrite set_row_beyond by assumption. reflexivity.
    + destruct (set_row_within data l nsamp (map (fun v => div v m) tr))
        as (data' & -> & Hall & Hlen'); try assumption.
      { now rewrite length_map. }
      cbn [bind]. apply IH; try assumption. simpl in Hlen. lia.
Qed.

(** A row of [ix] with more than three station indices, each of a
    readable trace of [nsamp] samples: the three rows of [data] are filled
    and the fourth index raises [IndexError]; the loop is wired for a
    station and two neighbours. *)
Theorem more_than_two_neighbours_raise (fuel : nat) (st : list (list T))
    (nsamp : nat) (nsamp_win i_max : Z) (js : list nat) :
  (1 <= nsamp)%nat ->
  forallb (fun j => match nth_error st j with
                    | Some tr => Nat.eqb (length tr) nsamp
                    | None => false
                    end) js = true ->
  (3 < length js)%nat ->
  station_trace fuel st nsamp nsamp_win i_max js = Raise IndexError.
Proof.
  intros Hn Hv Hlen. unfold station_trace.
  rewrite (fill_data_overflow st nsamp js 0 _ Hn Hv).
  - reflexivity.
  - repeat constructor; apply repeat_length.
  - simpl. lia.
Qed.

End Neighbours.

(** ** Exact real arithmetic: the range of the similarity *)

Section RealBounds.
Local Open Scope R_scope.

Lemma fold_Rmax_ge_acc (l : list R) (acc : R) : acc <= fold_left Rmax l acc.
Proof.
  revert acc. induction l as [|x l IH]; intros acc; simpl.
  - lra.
  - eapply Rle_trans; [apply (Rmax_l acc x)|apply IH].
Qed.

Lemma fold_Rmax_upper (l : list R) (acc d : R) :
  In d l -> d <= fold_left Rmax l acc.
Proof.
  revert acc. induction l as [|x l IH]; intros acc Hin; [destruct Hin|].
  destruct Hin as [E|Hin]; simpl.
  - subst x. eapply Rle_trans; [apply (Rmax_r acc d)|apply fold_Rmax_ge_acc].
  - apply IH. exact Hin.
Qed.

Lemma fold_Rmax_in (l : list R) (acc : R) : In (fold_left Rmax l acc) (acc :: l).
Proof.
  revert acc. induction l as [|x l IH]; intros acc; simpl.
  - now left.
  - destruct (IH (Rmax acc x)) as [E|Hin]; [|auto].
    rewrite <- E. destruct (Rmax_case acc x (fun r => acc = r \/ x = r)); auto.
Qed.

(** [np.max] of a nonempty real array is its greatest entry. *)
Lemma np_max_R_spec (l : list R) :
  l <> [] ->
  exists m, np_max l = Ret m /\ In m l /\ forall d, In d l -> d <= m.
Proof.
  intros Hl. destruct l as [|x l]; [congruence|].
  exists (fold_left Rmax l x). split; [reflexivity|]. split.
  - apply fold_Rmax_in.
  - intros d [E|Hin].
    + subst d. apply fold_Rmax_ge_acc.
    + now apply fold_Rmax_upper.
Qed.






(** [x/np.max(np.abs(x))] of a trace with a sample that is not zero:
    every sample of the result is between -1 and 1, and the largest
    magnitude is exactly one. *)
Theorem scale_trace_peak_is_one (x : list R) :
  (exists v, In v x /\ v <> 0) ->
  exists s,
    scale_trace x = Ret s /\
    length s = length x /\
    Forall (fun v => -1 <= v <= 1) s /\
    np_max (map Rabs s) = Ret 1.
Proof.
  intros (v0 & Hv0 & Hnz).
  assert (Hx : map Rabs x <> []) by (destruct x; [destruct Hv0|discriminate]).
  destruct (np_max_R_spec _ Hx) as (m & Hm & Hin & Hub).
  assert (Hpos : 0 < m).
  { pose proof (Hub (Rabs v0) (in_map Rabs _ _ Hv0)).
    pose proof (Rabs_pos_lt v0 Hnz). lra. }
  exists (map (fun v => v / m) x). split.
  { unfold scale_trace. change (@absv R Num_R) with Rabs. rewrite Hm. reflexivity. }
  split; [apply length_map|].
  assert (Hle : forall v, In v x -> Rabs (v / m) <= 1).
  { intros v Hv. unfold Rdiv. rewrite Rabs_mult, (Rabs_pos_eq (/ m)).
    - pose proof (Hub (Rabs v) (in_map Rabs _ _ Hv)).
      apply (Rmult_le_reg_r m); [assumption|].
      rewrite Rmult_assoc, Rinv_l by lra. lra.
    - left. now apply Rinv_0_lt_compat. }
  split.
  - apply Forall_forall. intros y Hy. apply in_map_iff in Hy as (v & <- & Hv).
    specialize (Hle v Hv). real_ops.
    unfold Rabs in Hle. destruct (Rcase_abs (v / m)); lra.
  - apply np_max_attained.
    + apply Forall_forall. intros y Hy. apply in_map_iff in Hy as (w & <- & Hw).
      apply in_map_iff in Hw as (v & <- & Hv). real_ops. now apply Hle.
    + apply in_map_iff in Hin as (v & Hvm & Hv).
      apply in_map_iff. exists (v / m). split.
      * unfold Rdiv. rewrite Rabs_mult, (Rabs_pos_eq (/ m)), Hvm.
        -- field. lra.
        -- left. now apply Rinv_0_lt_compat.
      * apply in_map_iff. exists v. split; [reflexivity|assumption].
Qed.

End RealBounds.

(** ** Binary64: a dead trace *)

Section FloatDeadTrace.
Local Open Scope float_scope.

Lemma sub_nan_l (y : float) : nan - y = nan.
Proof.
  apply fnan_eq. unfold fnan. rewrite FloatAxioms.sub_spec.
  change (Prim2SF nan) with S754_nan. reflexivity.
Qed.

Lemma pzero_eq (x : float) : pzero x -> x = 0.
Proof. intros Hx. apply Prim2SF_inj. exact Hx. Qed.

Lemma fold_fmax_zero (l : list float) :
  Forall (eq 0) l -> fold_left fmax l 0 = 0.
Proof.
  induction 1 as [|x l Hx Hl IH]; simpl; [reflexivity|].
  subst x. exact IH.
Qed.

Lemma dead_sample (x : list float) (v : float) :
  dead x = true -> In v x -> fzero v.
Proof.
  unfold dead. intros Hd Hv. rewrite forallb_forall in Hd.
  apply is_zero_fzero. exact (Hd v Hv).
Qed.

(** Scaling a dead trace divides zeros by zero: NaN throughout. *)
Lemma scale_trace_dead (x : list float) :
  x <> [] -> dead x = true ->
  exists s, scale_trace x = Ret s /\ length s = length x /\ Forall (eq nan) s.
Proof.
  intros Hx Hd.
  assert (Habs : Forall (eq 0) (map PrimFloat.abs x)).
  { apply Forall_forall. intros y Hy. apply in_map_iff in Hy as (v & <- & Hv).
    symmetry. apply pzero_eq, abs_fzero. exact (dead_sample x v Hd Hv). }
  assert (Hm : np_max (map PrimFloat.abs x) = Ret 0).
  { destruct x as [|u x]; [congruence|]. cbn [map] in *.
    inversion Habs as [|? ? Hu Hrest]; subst. cbn [np_max]. rewrite <- Hu.
    f_equal. apply fold_fmax_zero. exact Hrest. }
  exists (map (fun v => v / 0) x). split.
  { unfold scale_trace. change (@absv float Num_float) with PrimFloat.abs.
    rewrite Hm. reflexivity. }
  split; [apply length_map|].
  apply Forall_forall. intros y Hy. apply in_map_iff in Hy as (v & <- & Hv).
  symmetry. apply div_zero_by_zn.
  - exact (dead_sample x v Hd Hv).
  - left. apply pzero_fzero, pzero_zero.
Qed.

(** Both normalizations keep an operand that is NaN throughout. *)
Lemma normalize_a_nan (x : list float) :
  Forall (eq nan) x -> Forall (eq nan) (normalize_a x).
Proof.
  intros Hx. apply Forall_forall. intros y Hy.
  apply in_map_iff in Hy as (v & <- & Hv).
  rewrite Forall_forall in Hx. rewrite <- (Hx v Hv).
  change (nan = (nan - np_mean x) / (np_std x * of_nat (length x))).
  now rewrite sub_nan_l, div_nan_l.
Qed.

Lemma normalize_b_nan (x : list float) :
  Forall (eq nan) x -> Forall (eq nan) (normalize_b x).
Proof.
  intros Hx. apply Forall_forall. intros y Hy.
  apply in_map_iff in Hy as (v & <- & Hv).
  rewrite Forall_forall in Hx. rewrite <- (Hx v Hv).
  change (nan = (nan - np_mean x) / np_std x).
  now rewrite sub_nan_l, div_nan_l.
Qed.

(** [norm_xcorr] is NaN as soon as one normalized operand is NaN
    throughout. *)
Lemma norm_xcorr_nan_normalized (a b : list float) (max_lag : Z) :
  length a = length b -> a <> [] -> (1 <= max_lag)%Z ->
  Forall (eq nan) (normalize_a a) \/ Forall (eq nan) (normalize_b b) ->
  norm_xcorr a b max_lag = Ret nan.
Proof.
  intros Hlen Ha HL Hnan.
  assert (Hn : (1 <= length a)%nat) by (destruct a; simpl; [congruence|lia]).
  rewrite norm_xcorr_slice by assumption. cbv zeta.
  destruct (norm_xcorr_returns a b max_lag Hlen Ha HL) as [v Hv].
  rewrite norm_xcorr_slice in Hv by assumption. cbv zeta in Hv.
  apply np_max_nan.
  - intros E. rewrite E in Hv. discriminate.
  - apply Forall_forall. intros y Hy. apply in_map_iff in Hy as (k & <- & Hk).
    unfold lags in Hk. apply in_map_iff in Hk as (j & <- & Hj).
    apply in_seq in Hj. symmetry. apply corr_at_nan; auto.
    + now rewrite normalize_a_nil_iff.
    + rewrite normalize_b_nil_iff. intros ->. simpl in Hlen. lia.
    + rewrite length_normalize_a, length_normalize_b, <- Hlen.
      revert Hj. unfold slice_bound.
      destruct (Z.ltb_spec (Z.of_nat (length a) - 1 - max_lag) 0);
        destruct (Z.ltb_spec (Z.of_nat (length a) - 1 + max_lag) 0); lia.
Qed.

Lemma norm_xcorr_nan_operand (a b : list float) (max_lag : Z) :
  length a = length b -> a <> [] -> (1 <= max_lag)%Z ->
  Forall (eq nan) a \/ Forall (eq nan) b ->
  norm_xcorr a b max_lag = Ret nan.
Proof.
  intros Hlen Ha HL [Hn|Hn]; apply norm_xcorr_nan_normalized; auto.
  - left. now apply normalize_a_nan.
  - right. now apply normalize_b_nan.
Qed.

Lemma py_slice_Forall {A : Type} (P : A -> Prop) (x : list A) (s e : Z) :
  Forall P x -> Forall P (py_slice x s e).
Proof. intros Hx. unfold py_slice. now apply Forall_firstn, Forall_skipn. Qed.

(** A window in which one of the three rows is NaN throughout has the
    similarity NaN. *)
Lemma window_similarity_nan (s0 s1 s2 : list float) (nsamp nsamp_win i_max l : Z) :
  Z.of_nat (length s0) = nsamp -> Z.of_nat (length s1) = nsamp ->
  Z.of_nat (length s2) = nsamp ->
  (1 <= Z.quot nsamp_win 4)%Z -> (1 <= i_max)%Z ->
  (0 <= l < nsamp - nsamp_win)%Z ->
  Forall (eq nan) s0 \/ Forall (eq nan) s1 \/ Forall (eq nan) s2 ->
  window_similarity [s0; s1; s2] nsamp_win i_max l = Ret nan.
Proof.
  intros L0 L1 L2 Hwin Hlag Hl Hnan.
  destruct (window_similarity_returns s0 s1 s2 nsamp nsamp_win i_max
              L0 L1 L2 Hwin Hlag l Hl) as (c1 & c2 & Hc1 & Hc2 & ->).
  pose proof (quot4_ge1 _ Hwin) as Hw.
  assert (Hwl : forall r : list float, Z.of_nat (length r) = nsamp ->
                  length (py_slice r l (l + nsamp_win)) = Z.to_nat nsamp_win).
  { intros r Hr. rewrite py_slice_length by lia. f_equal. lia. }
  assert (Hne : py_slice s0 l (l + nsamp_win) <> []).
  { intros E. apply (f_equal (@length float)) in E. rewrite Hwl in E by assumption.
    simpl in E. lia. }
  assert (Hnan1 : Forall (eq nan) s0 \/ Forall (eq nan) s1 -> c1 = nan).
  { intros Hn.
    assert (E : norm_xcorr (py_slice s0 l (l + nsamp_win))
                           (py_slice s1 l (l + nsamp_win)) i_max = Ret nan).
    { apply norm_xcorr_nan_operand; auto.
      - rewrite !Hwl by assumption. reflexivity.
      - destruct Hn; [left|right]; now apply py_slice_Forall. }
    congruence. }
  assert (Hnan2 : Forall (eq nan) s0 \/ Forall (eq nan) s2 -> c2 = nan).
  { intros Hn.
    assert (E : norm_xcorr (py_slice s0 l (l + nsamp_win))
                           (py_slice s2 l (l + nsamp_win)) i_max = Ret nan).
    { apply norm_xcorr_nan_operand; auto.
      - rewrite !Hwl by assumption. reflexivity.
      - destruct Hn; [left|right]; now apply py_slice_Forall. }
    congruence. }
  f_equal. change ((c1 + c2) / of_nat 2 = nan).
  destruct Hnan as [Hn|[Hn|Hn]].
  - rewrite Hnan1 by auto. now rewrite add_nan_l, div_nan_l.
  - rewrite Hnan1 by auto. now rewrite add_nan_l, div_nan_l.
  - rewrite Hnan2 by auto. now rewrite add_nan_r, div_nan_l.
Qed.

End FloatDeadTrace.

Lemma starts_in_range (nsamp nsamp_win l : Z) :
  1 <= Z.quot nsamp_win 4 ->
  In l (starts (Z.quot nsamp_win 4) 0 (n_windows nsamp nsamp_win)) ->
  0 <= l < nsamp - nsamp_win.
Proof.
  intros Hwin Hin. apply In_nth_error in Hin as [j Hj].
  assert (Hlt : (j < n_windows nsamp nsamp_win)%nat).
  { rewrite <- (length_starts (Z.quot nsamp_win 4) 0). apply nth_error_Some. congruence. }
  rewrite nth_error_starts in Hj by assumption. injection Hj as <-.
  pose proof (window_start_bound nsamp nsamp_win j Hwin Hlt).
  assert (0 <= Z.of_nat j * Z.quot nsamp_win 4) by (apply Z.mul_nonneg_nonneg; lia).
  lia.
Qed.

Lemma fold_add_nan (l : list float) (acc : float) :
  In nan (acc :: l) -> fold_left PrimFloat.add l acc = nan.
Proof.
  revert acc. induction l as [|x l IH]; intros acc Hin; simpl.
  - destruct Hin as [E|[]]. now subst.
  - apply IH. destruct Hin as [E|[E|Hin]].
    + subst acc. left. apply add_nan_l.
    + subst x. left. apply add_nan_r.
    + right. exact Hin.
Qed.

Lemma station_trace_dead (fuel : nat) (st : list (list float))
    (nsamp : nat) (nsamp_win i_max : Z) (js : list nat) :
  (1 <= nsamp)%nat -> 1 <= Z.quot nsamp_win 4 -> 1 <= i_max ->
  valid_row st nsamp js = true -> has_dead st js = true ->
  (n_windows (Z.of_nat nsamp) nsamp_win < fuel)%nat ->
  exists C L,
    station_trace fuel st nsamp nsamp_win i_max js = Ret (C, L) /\
    length C = n_windows (Z.of_nat nsamp) nsamp_win /\
    Forall (eq nan) C.
Proof.
  intros Hsamp Hwin Hlag Hv Hd Hfuel.
  destruct (station_trace_spec st nsamp nsamp_win i_max Hsamp Hwin Hlag fuel js Hv Hfuel)
    as (j0 & j1 & j2 & t0 & t1 & t2 & s0 & s1 & s2 & C & Hjs & E0 & E1 & E2
        & S0 & S1 & S2 & L0 & L1 & L2 & Hrun & Hall).
  exists C, (centres (Z.of_nat nsamp) nsamp_win). split; [exact Hrun|].
  split.
  { apply Forall2_length in Hall. now rewrite length_starts in Hall. }
  assert (Hscaled : forall t s, scale_trace t = Ret s -> dead t = true ->
                                Forall (eq nan) s).
  { intros t s Hs Hdead.
    destruct (scale_trace_dead t) as (s' & Hs' & _ & Hnan); [|assumption|congruence].
    intros ->. discriminate. }
  assert (Hnan : Forall (eq nan) s0 \/ Forall (eq nan) s1 \/ Forall (eq nan) s2).
  { subst js. unfold has_dead in Hd. cbn [existsb] in Hd. rewrite E0, E1, E2 in Hd.
    rewrite orb_false_r in Hd.
    apply orb_true_iff in Hd as [Hd|Hd]; [left; eauto|].
    apply orb_true_iff in Hd as [Hd|Hd]; [right; left; eauto|right; right; eauto]. }
  assert (Hin : Forall (fun l => 0 <= l < Z.of_nat nsamp - nsamp_win)
                       (starts (Z.quot nsamp_win 4) 0
                               (n_windows (Z.of_nat nsamp) nsamp_win)))
    by (apply Forall_forall; intros l; now apply starts_in_range).
  set (ls := starts _ _ _) in *. clearbody ls. clear Hrun Hfuel.
  induction Hall as [|l c ls cs Hc Hrest IH]; constructor.
  - pose proof (Forall_inv Hin) as Hl. cbv beta in Hl.
    rewrite (window_similarity_nan s0 s1 s2 (Z.of_nat nsamp) nsamp_win i_max l) in Hc;
      try assumption; try (f_equal; assumption).
    congruence.
  - apply IH. exact (Forall_inv_tail Hin).
Qed.

(** A station whose row of [ix] names a dead trace (its own or a
    neighbour's): the loop runs through every window, raises nothing, and
    every entry of the station's similarity trace is NaN. *)
Theorem dead_trace_blanks_the_station_trace (fuel : nat) (st : list (list float))
    (nsamp : nat) (nsamp_win i_max : Z) (js : list nat) :
  (1 <= nsamp)%nat -> 1 <= Z.quot nsamp_win 4 -> 1 <= i_max ->
  valid_row st nsamp js = true -> has_dead st js = true ->
  (n_windows (Z.of_nat nsamp) nsamp_win < fuel)%nat ->
  exists C L,
    station_trace fuel st nsamp nsamp_win i_max js = Ret (C, L) /\
    length C = n_windows (Z.of_nat nsamp) nsamp_win /\
    Forall (eq nan) C.
Proof. apply station_trace_dead. Qed.

(** One dead trace blanks the network: when some row of [ix] names a
    dead trace, the cell raises nothing and every entry of the network
    stack is NaN. *)
Theorem dead_trace_blanks_the_network_stack (fuel : nat) (st : list (list float))
    (nsamp : nat) (nsamp_win i_max : Z) (ix : list (list nat)) (L_prev : list Z) :
  (1 <= nsamp)%nat -> 1 <= Z.quot nsamp_win 4 -> 1 <= i_max ->
  forallb (valid_row st nsamp) ix = true ->
  existsb (has_dead st) ix = true ->
  (n_windows (Z.of_nat nsamp) nsamp_win < fuel)%nat ->
  exists C_stack2D C_stack L,
    C_stack_cell fuel st nsamp nsamp_win i_max ix L_prev =
      Ret (C_stack2D, StackTrace C_stack, L) /\
    length C_stack = n_windows (Z.of_nat nsamp) nsamp_win /\
    Forall (eq nan) C_stack.
Proof.
  intros Hsamp Hwin Hlag Hv Hd Hfuel.
  destruct (stack_loop_spec st nsamp nsamp_win i_max Hsamp Hwin Hlag fuel ix [] L_prev
              Hv Hfuel) as (rows & Hloop & Hall).
  set (k := n_windows (Z.of_nat nsamp) nsamp_win) in *.
  assert (Hdead : exists C, In C rows /\ Forall (eq nan) C).
  { apply existsb_exists in Hd as (js & Hjs & Hdjs).
    rewrite forallb_forall in Hv. pose proof (Hv js Hjs) as Hvjs.
    destruct (station_trace_dead fuel st nsamp nsamp_win i_max js
                Hsamp Hwin Hlag Hvjs Hdjs Hfuel) as (C & L & Hrun & _ & Hnan).
    clear -Hall Hjs Hrun Hnan.
    induction Hall as [|js' C' ix' rows' [Hrun' _] Hrest IH]; [destruct Hjs|].
    destruct Hjs as [->|Hjs].
    - exists C'. split; [now left|]. congruence.
    - destruct (IH Hjs) as (C0 & Hin & Hn). exists C0. split; [now right|assumption]. }
  destruct rows as [|row0 rest].
  { destruct Hdead as (C & [] & _). }
  assert (Hlens : Forall (fun C => length C = length row0) rest).
  { inversion Hall as [|? ? ? ? [_ Hl0] Hrest]; subst.
    clear -Hrest Hl0. induction Hrest as [|? ? ? ? [_ Hl] ? IH]; constructor; auto.
    congruence. }
  assert (Hk : length row0 = k) by (inversion Hall as [|? ? ? ? [_ Hl0] _]; auto).
  destruct (network_stack_spec row0 rest (length ix) Hlens) as (c & Hstack & Hclen & Hcnth).
  exists (row0 :: rest), c.
  eexists. split.
  { unfold C_stack_cell. rewrite Hloop. cbn [bind fst snd app]. rewrite Hstack.
    reflexivity. }
  split; [congruence|].
  apply Forall_forall. intros y Hy. apply In_nth_error in Hy as [j Hj].
  assert (Hjk : (j < length row0)%nat).
  { rewrite <- Hclen. apply nth_error_Some. congruence. }
  rewrite Hcnth in Hj by assumption. injection Hj as <-.
  change (nan = PrimFloat.div
                  (fold_left PrimFloat.add (map (fun r => nth j r zero) rest)
                             (nth j row0 zero))
                  (of_nat (length ix))).
  rewrite fold_add_nan; [now rewrite div_nan_l|].
  destruct Hdead as (C & Hin & Hnan).
  assert (HC : length C = length row0).
  { destruct Hin as [->|Hin]; [reflexivity|].
    rewrite Forall_forall in Hlens. auto. }
  assert (Hnth : nth j C zero = nan).
  { rewrite Forall_forall in Hnan. symmetry. apply Hnan. apply nth_In. lia. }
  destruct Hin as [->|Hin].
  - left. exact Hnth.
  - right. apply in_map_iff. exists C. split; [exact Hnth|assumption].
Qed.

(** ** Exact rational arithmetic: shifts, result columns, time axis *)

Section RationalCells.
Local Open Scope Q_scope.






End RationalCells.

Section RationalResults.
Local Open Scope Q_scope.






End RationalResults.

(** ** The time axis at the window centres *)

Lemma centres_in_range (nsamp nsamp_win : Z) :
  1 <= Z.quot nsamp_win 4 ->
  Forall (fun c => 0 <= c < nsamp - 1) (centres nsamp nsamp_win).
Proof.
  intros Hwin. pose proof (quot4_ge1 _ Hwin) as Hw.
  assert (Hhalf : 0 <= Z.quot nsamp_win 2 < nsamp_win).
  { split; [apply Z.quot_pos; lia|apply Z.quot_lt; lia]. }
  apply Forall_forall. intros c Hc. unfold centres in Hc.
  apply in_map_iff in Hc as (l & <- & Hl).
  pose proof (starts_in_range nsamp nsamp_win l Hwin Hl). lia.
Qed.

Lemma py_index_inside {A : Type} (x : list A) (i : Z) (v : A) :
  0 <= i -> nth_error x (Z.to_nat i) = Some v -> py_index x i = Ret v.
Proof.
  intros Hi Hv. unfold py_index.
  assert (Hlt : (Z.to_nat i < length x)%nat) by (apply nth_error_Some; congruence).
  destruct (Z.ltb_spec i 0); [lia|].
  destruct (Z.leb_spec 0 i); [|lia].
  destruct (Z.ltb_spec i (Z.of_nat (length x))); [|lia].
  cbn [andb]. now rewrite Hv.
Qed.

Lemma take_inside {A : Type} (x : list A) (idx : list Z) :
  Forall (fun i => 0 <= i < Z.of_nat (length x)) idx ->
  exists vs,
    take x idx = Ret vs /\
    Forall2 (fun i v => nth_error x (Z.to_nat i) = Some v) idx vs.
Proof.
  induction 1 as [|i idx Hi Hrest (vs & Hrun & Hall)].
  - exists []. split; [reflexivity|constructor].
  - destruct (nth_error x (Z.to_nat i)) as [v|] eqn:E.
    2: { apply nth_error_None in E. lia. }
    exists (v :: vs). split.
    + cbn [take]. rewrite (py_index_inside x i v) by (lia || assumption).
      cbn [bind]. rewrite Hrun. reflexivity.
    + constructor; assumption.
Qed.

Section TimeAxis.
Local Open Scope Q_scope.

Lemma length_linspace (a b : Q) (n : nat) : length (linspace a b n) = n.
Proof.
  destruct n as [|[|n]]; try reflexivity.
  unfold linspace. rewrite length_app, length_map, length_seq. simpl. lia.
Qed.

Lemma linspace_nth (a b : Q) (n i : nat) :
  (i < S n)%nat ->
  nth_error (linspace a b (S (S n))) i =
  Some (inject_Z (Z.of_nat i) * ((b - a) / inject_Z (Z.of_nat (S n))) + a).
Proof.
  intros Hi. unfold linspace.
  rewrite nth_error_app1 by (rewrite length_map, length_seq; assumption).
  rewrite nth_error_map, nth_error_seq.
  destruct (Nat.ltb_spec i (S n)); [|lia]. reflexivity.
Qed.

(** The abscissa of the similarity plots, [t[L]] for the centres the loop
    records: indexing never fails, there is one time per window, time [j]
    is the axis at sample [j * step + int(nsamp_win/2)], and the times
    go up. *)
Theorem similarity_times_of_the_centres (nsamp : nat) (nsamp_win : Z) :
  (1 <= Z.quot nsamp_win 4)%Z ->
  exists ts,
    similarity_times nsamp (centres (Z.of_nat nsamp) nsamp_win) = Ret ts /\
    length ts = n_windows (Z.of_nat nsamp) nsamp_win /\
    (forall j, (j < n_windows (Z.of_nat nsamp) nsamp_win)%nat ->
       nth_error ts j =
       Some (inject_Z (Z.of_nat j * Z.quot nsamp_win 4 + Z.quot nsamp_win 2)
             * ((10 - -1) / inject_Z (Z.of_nat (nsamp - 1))) + -1)) /\
    (forall j t t', nth_error ts j = Some t -> nth_error ts (S j) = Some t' -> t < t').
Proof.
  intros Hwin.
  pose proof (centres_in_range (Z.of_nat nsamp) nsamp_win Hwin) as Hrange.
  destruct (take_inside (linspace (-1) 10 nsamp) (centres (Z.of_nat nsamp) nsamp_win))
    as (ts & Hrun & Hall).
  { rewrite length_linspace. eapply Forall_impl; [|exact Hrange].
    cbv beta. intros; lia. }
  exists ts. split; [exact Hrun|].
  pose proof (Forall2_length Hall) as Hlen. rewrite length_centres in Hlen.
  split; [now symmetry|].
  assert (Hnth : forall j, (j < n_windows (Z.of_nat nsamp) nsamp_win)%nat ->
     nth_error ts j =
     Some (inject_Z (Z.of_nat j * Z.quot nsamp_win 4 + Z.quot nsamp_win 2)
           * ((10 - -1) / inject_Z (Z.of_nat (nsamp - 1))) + -1)).
  { intros j Hj.
    pose proof (nth_error_centres (Z.of_nat nsamp) nsamp_win j Hj) as Hc.
    destruct (Forall2_nth_error_l _ _ _ j _ Hall Hc) as (t & Ht & Hx).
    rewrite Ht. rewrite <- Hx.
    rewrite Forall_forall in Hrange.
    pose proof (Hrange _ (nth_error_In _ _ Hc)) as Hb.
    set (c := (Z.of_nat j * Z.quot nsamp_win 4 + Z.quot nsamp_win 2)%Z) in *.
    destruct nsamp as [|[|n]]; try lia.
    rewrite linspace_nth by lia.
    rewrite Z2Nat.id by lia.
    replace (S (S n) - 1)%nat with (S n) by lia. reflexivity. }
  split; [exact Hnth|].
  intros j t t' Hj Hj'.
  assert (Hlt : (S j < n_windows (Z.of_nat nsamp) nsamp_win)%nat).
  { rewrite Hlen. apply nth_error_Some. congruence. }
  rewrite Hnth in Hj, Hj' by lia.
  assert (Et : t = inject_Z (Z.of_nat j * Z.quot nsamp_win 4 + Z.quot nsamp_win 2)
                   * ((10 - -1) / inject_Z (Z.of_nat (nsamp - 1))) + -1)
    by congruence.
  assert (Et' : t' = inject_Z (Z.of_nat (S j) * Z.quot nsamp_win 4 + Z.quot nsamp_win 2)
                     * ((10 - -1) / inject_Z (Z.of_nat (nsamp - 1))) + -1)
    by congruence.
  rewrite Et, Et'. clear Hj Hj' Et Et'.
  assert (Hn : (2 <= nsamp)%nat).
  { rewrite Forall_forall in Hrange.
    pose proof (nth_error_centres (Z.of_nat nsamp) nsamp_win j ltac:(lia)) as Hc.
    pose proof (Hrange _ (nth_error_In _ _ Hc)). lia. }
  assert (Hdt : 0 < (10 - -1) / inject_Z (Z.of_nat (nsamp - 1))).
  { apply Qlt_shift_div_l.
    - change 0 with (inject_Z 0). rewrite <- Zlt_Qlt. lia.
    - reflexivity. }
  set (dt := (10 - -1) / inject_Z (Z.of_nat (nsamp - 1))) in *. clearbody dt.
  set (a := (Z.of_nat j * Z.quot nsamp_win 4 + Z.quot nsamp_win 2)%Z).
  replace (Z.of_nat (S j) * Z.quot nsamp_win 4 + Z.quot nsamp_win 2)%Z
    with (a + Z.quot nsamp_win 4)%Z by (unfold a; rewrite Nat2Z.inj_succ; ring).
  rewrite (inject_Z_plus a).
  assert (Hs : 1 <= inject_Z (Z.quot nsamp_win 4)).
  { change 1 with (inject_Z 1). rewrite <- Zle_Qle. assumption. }
  set (c := inject_Z a). set (s := inject_Z (Z.quot nsamp_win 4)) in *.
  clearbody c s.
  assert (0 < s * dt) by (apply Qmult_lt_0_compat; lra).
  lra.
Qed.

End TimeAxis.

(** ** Exact real arithmetic: lag limits, gains and the stack *)

Section RealComposition.
Local Open Scope R_scope.

Lemma in_lags (lo k : Z) (n : nat) :
  In k (lags lo n) <-> (lo <= k < lo + Z.of_nat n)%Z.
Proof.
  unfold lags. rewrite in_map_iff. split.
  - intros (j & <- & Hj). apply in_seq in Hj. lia.
  - intros Hk. exists (Z.to_nat (k - lo)). split; [lia|]. apply in_seq. lia.
Qed.

Lemma dot_self_zero (x : list R) : dot x x = 0 -> Forall (eq 0) x.
Proof.
  induction x as [|u x IH]; intros E; constructor.
  - rewrite dot_cons in E. pose proof (dot_nonneg x).
    pose proof (Rle_0_sqr u) as Hsq. unfold Rsqr in Hsq.
    assert (Hu : u * u = 0) by lra.
    apply Rmult_integral in Hu. destruct Hu; auto.
  - apply IH. rewrite dot_cons in E. pose proof (dot_nonneg x).
    pose proof (Rle_0_sqr u) as Hsq. unfold Rsqr in Hsq. lra.
Qed.

Lemma dot_zeros (x : list R) : Forall (eq 0) x -> dot x x = 0.
Proof.
  induction 1 as [|u x Hu Hx IH]; [reflexivity|].
  rewrite dot_cons, IH, <- Hu. lra.
Qed.

(** The deviation of a nonempty window is zero exactly when the window
    is constant: every sample is the mean. *)
Theorem np_std_zero_iff_constant (x : list R) :
  x <> [] ->
  (np_std x = 0 <-> Forall (fun v => v = np_mean x) x).
Proof.
  intros Hx. pose proof (INR_length_pos x Hx) as Hn.
  pose proof (np_std_square x Hx) as Hsq.
  split.
  - intros E. rewrite E in Hsq.
    assert (Hd : dot (centred x) (centred x) = 0).
    { replace (dot (centred x) (centred x))
        with (dot (centred x) (centred x) / INR (length x) * INR (length x))
        by (field; lra).
      rewrite <- Hsq. lra. }
    apply dot_self_zero in Hd. unfold centred in Hd.
    rewrite Forall_map in Hd. eapply Forall_impl; [|exact Hd].
    cbv beta. intros v Hv. lra.
  - intros Hall.
    assert (Hd : dot (centred x) (centred x) = 0).
    { apply dot_zeros. unfold centred. rewrite Forall_map.
      eapply Forall_impl; [|exact Hall]. cbv beta. intros v Hv. lra. }
    rewrite Hd in Hsq.
    assert (Hz : np_std x * np_std x = 0) by (rewrite Hsq; field; lra).
    apply Rmult_integral in Hz. destruct Hz; assumption.
Qed.

(** Below the length of the operands (of nonzero deviations), a wider
    lag limit searches more lags: the returned similarity does not go
    down. *)
Theorem norm_xcorr_grows_with_the_lag_limit (a b : list R) (lag lag' : Z) :
  length a = length b -> np_std a <> 0 -> np_std b <> 0 ->
  (1 <= lag <= lag')%Z -> (lag' < Z.of_nat (length a))%Z ->
  exists v v',
    norm_xcorr a b lag = Ret v /\ norm_xcorr a b lag' = Ret v' /\ v <= v'.
Proof.
  intros Hlen _ _ HL HL'.
  rewrite !norm_xcorr_window by (auto; lia).
  set (f := corr_at (normalize_a a) (normalize_b b)).
  destruct (np_max_R_spec (map f (lags (- lag) (Z.to_nat (2 * lag)))))
    as (v & Hv & Hin & _).
  { intros E. apply (f_equal (@length R)) in E.
    unfold lags in E. rewrite !length_map, length_seq in E. cbn [length] in E. lia. }
  destruct (np_max_R_spec (map f (lags (- lag') (Z.to_nat (2 * lag')))))
    as (v' & Hv' & _ & Hub).
  { intros E. apply (f_equal (@length R)) in E.
    unfold lags in E. rewrite !length_map, length_seq in E. cbn [length] in E. lia. }
  exists v, v'. repeat split; try assumption.
  apply Hub. apply in_map_iff in Hin as (k & <- & Hk).
  apply in_map_iff. exists k. split; [reflexivity|].
  apply in_lags. apply in_lags in Hk. lia.
Qed.




End RealComposition.

(** ** Binary64: a window of zeros *)

Section FloatDeadWindow.
Local Open Scope float_scope.

Lemma fzero_is_zero (d : float) : fzero d -> PrimFloat.is_zero d = true.
Proof.
  intros [s Hd]. unfold PrimFloat.is_zero. rewrite FloatAxioms.eqb_spec, Hd.
  reflexivity.
Qed.

Lemma sub_nan_r (x : float) : x - nan = nan.
Proof.
  apply fnan_eq. unfold fnan. rewrite FloatAxioms.sub_spec.
  change (Prim2SF nan) with S754_nan. destruct (Prim2SF x); reflexivity.
Qed.

Lemma sub_fzero (x y : float) : fzero x -> fzero y -> fzero (x - y).
Proof.
  intros [s Hx] [t Hy]. unfold fzero. rewrite FloatAxioms.sub_spec, Hx, Hy.
  destruct s, t; simpl; eauto.
Qed.

Lemma add_fzero (x y : float) : fzero x -> fzero y -> fzero (x + y).
Proof.
  intros [s Hx] [t Hy]. unfold fzero. rewrite FloatAxioms.add_spec, Hx, Hy.
  destruct s, t; simpl; eauto.
Qed.

Lemma fold_add_fzero (l : list float) (acc : float) :
  fzero acc -> Forall fzero l -> fzero (fold_left PrimFloat.add l acc).
Proof.
  intros Hacc Hall. revert acc Hacc.
  induction Hall as [|x l Hx Hl IH]; intros acc Hacc; simpl; [exact Hacc|].
  apply IH. now apply add_fzero.
Qed.

(** The mean of a window of zeros is a zero or NaN, and both
    normalizations turn the window into NaN throughout. *)
Lemma normalize_dead (x : list float) :
  dead x = true ->
  Forall (eq nan) (normalize_a x) /\ Forall (eq nan) (normalize_b x).
Proof.
  intros Hd.
  assert (Hall : Forall fzero x).
  { apply Forall_forall. intros v Hv. exact (dead_sample x v Hd Hv). }
  assert (Hmean : fzn (np_mean x)).
  { unfold np_mean. apply div_zero_fzn.
    apply fold_add_fzero; [apply pzero_fzero, pzero_zero|exact Hall]. }
  destruct Hmean as [Hz|Hn].
  - assert (Hs : silent x = true).
    { unfold silent. apply forallb_forall. intros v Hv.
      apply fzero_is_zero. apply sub_fzero; [|exact Hz].
      exact (dead_sample x v Hd Hv). }
    split; [now apply normalize_a_silent|now apply normalize_b_silent].
  - apply fnan_eq in Hn.
    split; apply Forall_forall; intros y Hy;
      apply in_map_iff in Hy as (v & <- & Hv); rewrite Hn.
    + change (nan = (v - nan) / (np_std x * of_nat (length x))).
      now rewrite sub_nan_r, div_nan_l.
    + change (nan = (v - nan) / np_std x).
      now rewrite sub_nan_r, div_nan_l.
Qed.

(** A window of zeros, truly silent data, in either operand: for a lag
    limit of at least one [norm_xcorr] raises nothing and returns NaN. *)
Theorem norm_xcorr_of_a_window_of_zeros (a b : list float) (max_lag : Z) :
  length a = length b -> a <> [] -> (1 <= max_lag)%Z ->
  dead a = true \/ dead b = true ->
  norm_xcorr a b max_lag = Ret nan.
Proof.
  intros Hlen Ha HL [Hd|Hd]; apply norm_xcorr_nan_normalized; auto.
  - left. now apply normalize_dead.
  - right. now apply normalize_dead.
Qed.

End FloatDeadWindow.

(** ** The further properties at concrete inputs *)

Lemma norm_xcorr_raises_iff_witness :
  (norm_xcorr trace_a trace_b 0 = Raise ValueError
   <-> trace_a = [] \/ 0 <= 0) /\
  ((exists v, norm_xcorr trace_a trace_b 0 = Ret v) <-> trace_a <> [] /\ 1 <= 0).
Proof.
  apply (norm_xcorr_raises_iff trace_a trace_b 0). reflexivity.
Defined.

Lemma norm_xcorr_lag_limit_beyond_length_witness :
  norm_xcorr [1; -1; 1; -1]%float [1; -1; 1; -1]%float 4 =
  np_max (map (corr_at (normalize_a [1; -1; 1; -1]%float)
                       (normalize_b [1; -1; 1; -1]%float))
              (lags (2 * 4 - 1 - 4) (Z.to_nat (4 - 4 + 1)))).
Proof.
  apply (norm_xcorr_lag_limit_beyond_length
           [1; -1; 1; -1]%float [1; -1; 1; -1]%float 4);
    first [ reflexivity | discriminate | cbn; lia ].
Defined.

Lemma windows_lie_inside_the_record_witness :
  exists C L, local_similarity 20 [trace_a; trace_b; trace_c] 30 8 2 = Ret (C, L).
Proof.
  destruct (windows_lie_inside_the_record trace_a trace_b trace_c 30 8 2
              eq_refl eq_refl eq_refl 20)
    as (C & L & Hrun & _); [by_computation | by_computation | by_computation |].
  exists C, L. exact Hrun.
Defined.

Lemma lag_limit_below_one_stops_the_loop_witness :
  local_similarity 1 [trace_a; trace_b; trace_c] 30 8 0 = Raise ValueError.
Proof.
  apply (lag_limit_below_one_stops_the_loop trace_a trace_b trace_c 30 8 0
           eq_refl eq_refl 0); by_computation.
Defined.

Lemma short_window_loops_forever_witness :
  local_similarity 100 [trace_a; trace_b; trace_c] 30 3 2 = OutOfFuel.
Proof.
  apply (short_window_loops_forever trace_a trace_b trace_c 30 3 2
           eq_refl eq_refl eq_refl 100); first [ lia | by_computation ].
Defined.

Lemma more_than_two_neighbours_raise_witness :
  station_trace 20 [trace_a; trace_b; trace_c] 30 8 2 [0; 1; 2; 1]%nat
  = Raise IndexError.
Proof.
  apply (more_than_two_neighbours_raise 20 [trace_a; trace_b; trace_c] 30 8 2
           [0; 1; 2; 1]%nat); first [ reflexivity | cbn; lia ].
Defined.

Lemma dead_trace_blanks_the_station_trace_witness :
  exists C L,
    station_trace 20 [trace_a; flat_trace; trace_c] 30 8 2 [0; 1; 2]%nat = Ret (C, L) /\
    length C = n_windows 30 8 /\
    Forall (eq nan) C.
Proof.
  apply (dead_trace_blanks_the_station_trace 20 [trace_a; flat_trace; trace_c]
           30 8 2 [0; 1; 2]%nat); by_computation.
Defined.

Lemma dead_trace_blanks_the_network_stack_witness :
  exists C_stack2D C_stack L,
    C_stack_cell 20 [trace_a; flat_trace; trace_c; trace_b] 30 8 2
      [[0; 2; 3]; [1; 0; 2]; [2; 0; 3]; [3; 0; 2]]%nat [] =
      Ret (C_stack2D, StackTrace C_stack, L) /\
    length C_stack = n_windows 30 8 /\
    Forall (eq nan) C_stack.
Proof.
  apply (dead_trace_blanks_the_network_stack 20
           [trace_a; flat_trace; trace_c; trace_b] 30 8 2
           [[0; 2; 3]; [1; 0; 2]; [2; 0; 3]; [3; 0; 2]]%nat []); by_computation.
Defined.

Lemma norm_xcorr_of_a_window_of_zeros_witness :
  norm_xcorr trace_a flat_trace 3 = Ret nan.
Proof.
  apply (norm_xcorr_of_a_window_of_zeros trace_a flat_trace 3);
    first [ reflexivity | discriminate | lia | right; reflexivity ].
Defined.

Section RealWitnesses.
Local Open Scope R_scope.


Lemma np_mean_pm1_0 : np_mean [1; -1; 0] = 0.
Proof. unfold np_mean, np_sum. simpl. lra. Qed.

Lemma np_std_pm1_0 : np_std [1; -1; 0] <> 0.
Proof.
  intros E. pose proof (np_std_square [1; -1; 0] ltac:(discriminate)) as Hsq.
  rewrite E in Hsq. unfold centred in Hsq. rewrite np_mean_pm1_0 in Hsq.
  unfold dot in Hsq. simpl in Hsq. lra.
Qed.

Lemma norm_xcorr_grows_with_the_lag_limit_witness :
  exists v v',
    norm_xcorr [1; -1; 0] [1; -1; 0] 1 = Ret v /\
    norm_xcorr [1; -1; 0] [1; -1; 0] 2 = Ret v' /\
    v <= v'.
Proof.
  apply (norm_xcorr_grows_with_the_lag_limit [1; -1; 0] [1; -1; 0] 1 2);
    first [ reflexivity | exact np_std_pm1_0 | cbn; lia ].
Defined.

Lemma np_std_zero_iff_constant_witness :
  np_std [2; 2; 2] = 0 <-> Forall (fun v => v = np_mean [2; 2; 2]) [2; 2; 2].
Proof.
  apply (np_std_zero_iff_constant [2; 2; 2]). discriminate.
Defined.

Lemma scale_trace_peak_is_one_witness :
  exists s,
    scale_trace [2; -4; 1] = Ret s /\
    length s = length [2; -4; 1] /\
    Forall (fun v => -1 <= v <= 1) s /\
    np_max (map Rabs s) = Ret 1.
Proof.
  apply (scale_trace_peak_is_one [2; -4; 1]).
  exists 2. split; [now left|lra].
Defined.



End RealWitnesses.

Section RationalWitnesses.
Local Open Scope Q_scope.





Lemma similarity_times_of_the_centres_witness :
  exists ts, similarity_times 30 (centres 30 8) = Ret ts /\
             length ts = n_windows 30 8.
Proof.
  destruct (similarity_times_of_the_centres 30 8) as (ts & Hrun & Hlen & _);
    [by_computation|].
  exists ts. split; assumption.
Defined.

End RationalWitnesses.
